(** * A shallow embedding of the Aquarium packer builder workflow

    The builder (package [aquarium]) drives a fixed sequence of
    [multistep] steps against an AquariumFish service: connect, find the
    label, create an application, wait for its allocation, set up the
    SSH endpoint, hand over to the SSH communicator and provisioners,
    create an image task, and deallocate the application in the cleanup
    hook of the first step.

    The repository carries two generations of several steps: a gRPC
    generation (typed [aquariumv2] messages, [step_wait_for_allocation.go],
    [step_setup_ssh.go], [part_003], [part_007]) and a REST generation
    (plain Go structs and string statuses, [part_001], [part_004],
    [part_005], [step_find_label.go], [step_cleanup.go]).  Where the two
    differ in a way that matters, both are embedded, with the suffix
    [_v2] for the gRPC one and [_legacy] for the REST one.

    Service answers are inputs: every remote call is answered from an
    explicit script, and every remote call the code issues is recorded
    in a trace.  Polling loops take the list of ticks that the Go
    [select] delivers before the deadline fires; when that list is used
    up, the deadline case of the [select] runs.  The step runner is the
    one [commonsteps.NewRunner] builds for Packer's -on-error option,
    whose user answers (for -on-error=ask) are part of the script. *)

From Stdlib Require Import ZArith Ascii String List Bool Lia.
From stdpp Require Import base gmap strings list.

Import ListNotations.
Open Scope Z_scope.
Set Warnings "-register-all".

(* ------------------------------------------------------------------ *)
(** ** Go standard library helpers used by the steps *)

Module Go.

(** Go's [int] on the 64-bit platforms packer runs on. *)
Definition int_min : Z := - 2 ^ 63.
Definition int_max : Z := 2 ^ 63 - 1.

Definition digit_of (c : ascii) : option Z :=
  let n := Z.of_nat (nat_of_ascii c) in
  if (48 <=? n) && (n <=? 57) then Some (n - 48) else None.

Fixpoint digits_value (s : string) (acc : Z) : option Z :=
  match s with
  | EmptyString => Some acc
  | String c t =>
      match digit_of c with
      | Some d => digits_value t (acc * 10 + d)
      | None => None
      end
  end.

(** [strconv.Atoi]: an optional sign, then one or more decimal digits,
    the value in the range of [int]; anything else is an error
    ([ErrSyntax] or [ErrRange]), here [None]. *)
Definition Atoi (s : string) : option Z :=
  let '(neg, body) :=
    match s with
    | String c t =>
        if Ascii.eqb c "+"%char then (false, t)
        else if Ascii.eqb c "-"%char then (true, t)
        else (false, s)
    | EmptyString => (false, s)
    end in
  match body with
  | EmptyString => None
  | String _ _ =>
      match digits_value body 0 with
      | None => None
      | Some v =>
          let n := if neg then - v else v in
          if (int_min <=? n) && (n <=? int_max) then Some n else None
      end
  end.

Fixpoint itoa_digits (fuel : nat) (n : N) (acc : string) : string :=
  match fuel with
  | O => acc
  | S f =>
      let acc' := String (ascii_of_N (48 + N.modulo n 10)) acc in
      if (n <? 10)%N then acc' else itoa_digits f (N.div n 10) acc'
  end.

(** [strconv.Itoa]: the decimal representation. *)
Definition Itoa (z : Z) : string :=
  match z with
  | Z0 => "0"
  | Zpos p => itoa_digits (Pos.size_nat p) (Npos p) EmptyString
  | Zneg p => String "-"%char (itoa_digits (Pos.size_nat p) (Npos p) EmptyString)
  end.

(** [strings.Split(s, ":")]: the [n] colons of [s] cut it into [n + 1]
    fields, empty ones included. *)
Fixpoint split_colon (s : string) : list string :=
  match s with
  | EmptyString => [EmptyString]
  | String c rest =>
      match split_colon rest with
      | [] => []
      | f :: fs =>
          if Ascii.eqb c ":"%char then EmptyString :: f :: fs
          else String c f :: fs
      end
  end.

End Go.

(* ------------------------------------------------------------------ *)
(** ** Data model (api_client.go, REST generation in part_002) *)

(** Only the driver of a definition is kept; the steps below read no
    field of a definition, only how many there are. *)
Record LabelDefinition := { Driver : string }.

Record Label := {
  UID : string;
  Name : string;
  Version : Z;
  Definitions : list LabelDefinition;
}.

(** The errors the steps put under the state key ["error"], one
    constructor per [fmt.Errorf] format of the source. *)
Inductive error :=
  | ErrAPIConnection
  | ErrLabelRetrieval
  | ErrLabelNotFound (name : string)
  | ErrInvalidVersionFormat
  | ErrLabelVersionNotFound
  | ErrNoSuitableLabel
  | ErrLabelNoDefinitions
  | ErrApplicationCreation
  | ErrAllocationTimeout
  | ErrGetApplicationState
  | ErrGetApplicationResource
  | ErrApplicationFailed (status : string)
  | ErrSSHAccess
  | ErrSSHAccessTimeout
  | ErrSSHRetryLimit
  | ErrStep (step : string)
  | ErrMissingState (key : string)
  | ErrImageTaskCreation
  | ErrImageTimeout
  | ErrTaskStatus
  | ErrImageFailed.

(** A decoded JSON / [structpb] value, as held by the [map[string]any]
    maps of the code (application metadata, task results).  Numbers
    are kept as integers: only their identity matters below. *)
Inductive value :=
  | VNull
  | VBool (b : bool)
  | VNum (n : Z)
  | VStr (s : string)
  | VList (l : list value)
  | VStruct (fields : list (string * value)).

(** The remote calls of the API client, with the arguments that name
    the object they act on. *)
Inductive api_call :=
  | CallGetCurrentUser
  | CallGetLabels (name version : string)
  | CallSubscribe
  | CallCreateApplication (label_uid : string) (metadata : gmap string value)
  | CallGetApplicationState (uid : string)
  | CallGetApplicationResource (uid : string)
  | CallGetResourceAccess (resource_uid : string)
  | CallDeallocateApplication (uid : string)
  | CallCreateApplicationTask (uid : string)
  | CallGetApplicationTask (task_uid : string).

(** What a run shows: remote calls and the status lines of the wait
    loop. *)
Inductive event :=
  | Api (c : api_call)
  | Say (msg : string).

(** Events of a call, put in front of the events of what follows. *)
Definition prepend {A : Type} (pre : list event) (r : A * list event) : A * list event :=
  (fst r, pre ++ snd r).

(* ------------------------------------------------------------------ *)
(** ** StepFindLabel.Run (step_find_label.go) *)

Module FindLabel.

Inductive outcome :=
  | Continue (selected : Label)
  | Halt (e : error).

(** The latest-version loop: [maxVersion] starts at [-1] and a label
    replaces the current choice only on a strictly greater version. *)
Fixpoint select_latest (labels : list Label) (maxVersion : Z)
    (selected : option Label) : option Label :=
  match labels with
  | [] => selected
  | l :: rest =>
      if maxVersion <? Version l
      then select_latest rest (Version l) (Some l)
      else select_latest rest maxVersion selected
  end.

(** The exact-version loop: the first label with that version. *)
Definition select_version (labels : list Label) (requested : Z) : option Label :=
  find (fun l => Version l =? requested) labels.

(** The version passed to the label query. *)
Definition query_version (LabelVersion : string) : string :=
  if String.eqb LabelVersion "" then "last" else LabelVersion.

(** The tail of [Run] once a label is chosen. *)
Definition check_selected (selectedLabel : option Label) : outcome :=
  match selectedLabel with
  | None => Halt ErrNoSuitableLabel
  | Some l =>
      match Definitions l with
      | [] => Halt ErrLabelNoDefinitions
      | _ => Continue l
      end
  end.

(** [Run], given the answer of [GetLabels(LabelName, version)]
    ([None] when the call returned an error). *)
Definition Run (LabelName LabelVersion : string)
    (labels_resp : option (list Label)) : outcome :=
  match labels_resp with
  | None => Halt ErrLabelRetrieval
  | Some [] => Halt (ErrLabelNotFound LabelName)
  | Some labels =>
      if String.eqb LabelVersion "" then
        check_selected (select_latest labels (-1) None)
      else
        match Go.Atoi LabelVersion with
        | None => Halt ErrInvalidVersionFormat
        | Some requestedVersion =>
            match select_version labels requestedVersion with
            | None => Halt ErrLabelVersionNotFound
            | Some l => check_selected (Some l)
            end
        end
  end.

End FindLabel.

(* ------------------------------------------------------------------ *)
(** ** StepWaitForAllocation.Run (step_wait_for_allocation.go, part_005) *)

Module Wait.

(** The arm of the [switch appState.Status] a status falls into. *)
Inductive branch := BrAllocated | BrFailed | BrIntermediate | BrUnknown.

Record Resource := { ResourceUID : string; IpAddr : string }.

(** Answer of [GetApplicationResource]: an error, no resource yet
    ([nil, nil]) or the resource. *)
Inductive resource_resp :=
  | ResErr
  | ResNone
  | ResSome (r : Resource).

(** One case of the [select]: the deadline of [timeoutCtx], or a tick
    of the ticker with the answer of [GetApplicationState] (an error, or
    a status with its description) and the answer the resource call
    would get on that tick. *)
Inductive tick (S : Type) :=
  | Deadline
  | TickStateErr
  | Tick (status : S) (description : string) (resource : resource_resp).
Arguments Deadline {S}.
Arguments TickStateErr {S}.
Arguments Tick {S} status description resource.

Inductive outcome :=
  | Done (r : Resource)
  | Halt (e : error).

Section Loop.
Context {S : Type}.
(** Status comparison, [String()] and the switch of the generation. *)
Variable status_eqb : S -> S -> bool.
Variable status_name : S -> string.
Variable branch_of : S -> branch.
Variable uid : string.

(** The [for]/[select] loop; [lastStatus] is the status printed last.
    The deadline fires at the latest once the listed cases are used up. *)
Fixpoint loop (lastStatus : S) (ticks : list (tick S)) : outcome * list event :=
  match ticks with
  | [] => (Halt ErrAllocationTimeout, [])
  | Deadline :: _ => (Halt ErrAllocationTimeout, [])
  | TickStateErr :: _ =>
      (Halt ErrGetApplicationState, [Api (CallGetApplicationState uid)])
  | Tick st descr res :: rest =>
      let changed := negb (status_eqb st lastStatus) in
      let lastStatus' := if changed then st else lastStatus in
      let pre := Api (CallGetApplicationState uid) ::
        (if changed
         then [Say (String.append "Application status: "
                     (String.append (status_name st) (String.append " - " descr)))]
         else []) in
      match branch_of st with
      | BrAllocated =>
          let pre' := pre ++ [Api (CallGetApplicationResource uid)] in
          match res with
          | ResErr => (Halt ErrGetApplicationResource, pre')
          | ResNone => prepend pre' (loop lastStatus' rest)
          | ResSome r => (Done r, pre')
          end
      | BrFailed => (Halt (ErrApplicationFailed (status_name st)), pre)
      | BrIntermediate => prepend pre (loop lastStatus' rest)
      | BrUnknown =>
          prepend (pre ++ [Say (String.append "Unknown application status: " (status_name st))])
            (loop lastStatus' rest)
      end
  end.

End Loop.

(** *** gRPC generation: [aquariumv2.ApplicationState_Status] *)

(** The enum values the switch names, the zero value, and any other
    value of the enum (by its [String()]). *)
Inductive Status :=
  | UNSPECIFIED
  | NEW
  | ELECTED
  | ALLOCATED
  | DEALLOCATE
  | DEALLOCATED
  | ERROR
  | OtherStatus (name : string).

#[global] Instance Status_eq_dec : EqDecision Status.
Proof. solve_decision. Defined.

Definition status_name_v2 (s : Status) : string :=
  match s with
  | UNSPECIFIED => "UNSPECIFIED"
  | NEW => "NEW"
  | ELECTED => "ELECTED"
  | ALLOCATED => "ALLOCATED"
  | DEALLOCATE => "DEALLOCATE"
  | DEALLOCATED => "DEALLOCATED"
  | ERROR => "ERROR"
  | OtherStatus n => n
  end.

(** step_wait_for_allocation.go, lines 72-115. *)
Definition branch_v2 (s : Status) : branch :=
  match s with
  | ALLOCATED => BrAllocated
  | ERROR | DEALLOCATED | DEALLOCATE => BrFailed
  | NEW | ELECTED => BrIntermediate
  | _ => BrUnknown
  end.

(** [Run] from the polling loop on; [lastStatus] starts at the zero
    value of the enum. *)
Definition run_v2 (uid : string) (ticks : list (tick Status)) : outcome * list event :=
  loop (fun a b => bool_decide (a = b)) status_name_v2 branch_v2 uid UNSPECIFIED ticks.

(** *** REST generation: string statuses (part_005) *)

(** part_005, lines 71-114. *)
Definition branch_legacy (s : string) : branch :=
  if String.eqb s "ALLOCATED" then BrAllocated
  else if existsb (String.eqb s) ["ERROR"; "DEALLOCATED"; "RECALLED"] then BrFailed
  else if existsb (String.eqb s) ["NEW"; "ELECTED"; "DEALLOCATE"] then BrIntermediate
  else BrUnknown.

(** [lastStatus] starts at the empty string. *)
Definition run_legacy (uid : string) (ticks : list (tick string)) : outcome * list event :=
  loop String.eqb (fun s => s) branch_legacy uid "" ticks.

End Wait.

(* ------------------------------------------------------------------ *)
(** ** ParseSSHAddress (api_client.go) *)

(** [None] stands for the returned error. *)
Definition ParseSSHAddress (addr : string) : option (string * Z) :=
  match Go.split_colon addr with
  | [host; port] =>
      match Go.Atoi port with
      | Some p => Some (host, p)
      | None => None
      end
  | _ => None
  end.

(* ------------------------------------------------------------------ *)
(** ** StepSetupSSH.Run (step_setup_ssh.go and part_001) *)

Module SetupSSH.

Record Access := {
  Address : string;
  Username : string;
  Password : string;
  Key : string;
}.

(** The communicator settings the step falls back to. *)
Record CommConfig := { SSHHost : string; SSHPort : Z }.

(** Answer of [GetApplicationResourceAccess]: an error, or a (possibly
    nil) access. *)
Inductive access_resp :=
  | AccErr
  | AccOk (a : option Access).

Inductive outcome :=
  | Continue (host : string) (port : Z)
  | Halt (e : error).

(** [access.GetAddress()]: the protobuf getter yields [""] on nil. *)
Definition GetAddress (a : option Access) : string :=
  match a with
  | Some a => Address a
  | None => EmptyString
  end.

(** Parse the address, falling back to the communicator defaults. *)
Definition resolve (comm : CommConfig) (addr : string) : string * Z :=
  match ParseSSHAddress addr with
  | Some hp => hp
  | None => (SSHHost comm, SSHPort comm)
  end.

(** gRPC generation (step_setup_ssh.go): one access request.  The
    copies of username, password and key into the communicator
    configuration are not modelled; they decide nothing here. *)
Definition run_v2 (comm : CommConfig) (resource_uid : string) (resp : access_resp)
    : outcome * list event :=
  let pre := [Api (CallGetResourceAccess resource_uid)] in
  match resp with
  | AccErr => (Halt ErrSSHAccess, pre)
  | AccOk a => let '(h, p) := resolve comm (GetAddress a) in (Continue h p, pre)
  end.

(** Period of the ticker of the polling variant, in seconds. *)
Definition tick_interval_seconds : Z := 10.

(** [ConnectionRetries] after [Builder.Prepare] (builder.go). *)
Definition prepared_retries (ConnectionRetries : Z) : Z :=
  if ConnectionRetries <=? 0 then 60 else ConnectionRetries.

(** Polling generation (part_001, lines 136-211): the ticks delivered
    before the [connectionTimeoutDuration] deadline; [retryCount] is
    incremented on each tick and checked before the request.  A nil
    access is the REST client's 404 ([nil, nil]). *)
Fixpoint loop (comm : CommConfig) (resource_uid : string) (maxRetries retryCount : Z)
    (ticks : list access_resp) : outcome * list event :=
  match ticks with
  | [] => (Halt ErrSSHAccessTimeout, [])
  | r :: rest =>
      let retryCount' := retryCount + 1 in
      if maxRetries <? retryCount' then (Halt ErrSSHRetryLimit, [])
      else
        let pre := [Api (CallGetResourceAccess resource_uid)] in
        match r with
        | AccErr => (Halt ErrSSHAccess, pre)
        | AccOk None => prepend pre (loop comm resource_uid maxRetries retryCount' rest)
        | AccOk (Some a) => let '(h, p) := resolve comm (Address a) in (Continue h p, pre)
        end
  end.

Definition run_loop (comm : CommConfig) (ConnectionRetries : Z) (resource_uid : string)
    (ticks : list access_resp) : outcome * list event :=
  loop comm resource_uid (prepared_retries ConnectionRetries) 0 ticks.

End SetupSSH.

(* ------------------------------------------------------------------ *)
(** ** StepCreateImage.Run (part_003, gRPC generation) *)

Module Image.

(** Answer of [GetApplicationTask]: an error, or the task with its
    result struct ([None] for a nil [Result]). *)
Inductive task_resp :=
  | TaskErr
  | TaskOk (result : option (gmap string value)).

Inductive outcome :=
  | Continue (results : gmap string value)
  | Halt (e : error).

(** [GetResult().AsMap()]: the empty map for a nil struct. *)
Definition AsMap (r : option (gmap string value)) : gmap string value :=
  match r with
  | Some m => m
  | None => ∅
  end.

(** [status == "success"] on an [any]: true only for that string. *)
Definition is_str (v : value) (lit : string) : bool :=
  match v with
  | VStr s => String.eqb s lit
  | _ => false
  end.

(** Lines 89-123, once the result is non-empty. *)
Definition classify (results : gmap string value) : outcome :=
  match results !! "status"%string with
  | Some status =>
      if is_str status "success" || is_str status "completed" then Continue results
      else if is_str status "failed" || is_str status "error" then Halt ErrImageFailed
      else Continue results
  | None => Continue results
  end.

(** The 15 s polling loop under the 30 min deadline. *)
Fixpoint loop (task_uid : string) (ticks : list task_resp) : outcome * list event :=
  match ticks with
  | [] => (Halt ErrImageTimeout, [])
  | TaskErr :: _ => (Halt ErrTaskStatus, [Api (CallGetApplicationTask task_uid)])
  | TaskOk r :: rest =>
      let pre := [Api (CallGetApplicationTask task_uid)] in
      match r with
      | Some m =>
          if negb (Nat.eqb (size m) 0) then (classify m, pre)
          else prepend pre (loop task_uid rest)
      | None => prepend pre (loop task_uid rest)
      end
  end.

(** [Run]: create the [TaskImage] task ([None] for an error), then poll. *)
Definition run_v2 (app_uid : string) (created : option string) (ticks : list task_resp)
    : outcome * list event :=
  let pre := [Api (CallCreateApplicationTask app_uid)] in
  match created with
  | None => (Halt ErrImageTaskCreation, pre)
  | Some task_uid => prepend pre (loop task_uid ticks)
  end.

End Image.

(* ------------------------------------------------------------------ *)
(** ** StepCreateApplication.Run (part_007) *)

Module CreateApp.

(** The metadata map of lines 44-56: a copy of the user map (the
    [range] loop, a [nil] config map copying nothing), then the three
    packer keys.  [build_time] is [time.Now().Format(time.RFC3339)].
    The user values come from the decoded HCL configuration (strings,
    numbers, booleans, lists and objects), all of which
    [structpb.NewStruct] accepts, so its ignored error never fires. *)
Definition metadata (ApplicationMetadata : option (gmap string value)) (build_time : string)
    : gmap string value :=
  let user := match ApplicationMetadata with Some m => m | None => ∅ end in
  let copied : gmap string value := list_to_map (map_to_list user) in
  <["PACKER_BUILD_TIME" := VStr build_time]>
    (<["PACKER_BUILDER" := VStr "aquarium"]>
      (<["PACKER_BUILD" := VStr "true"]> copied)).

Inductive outcome :=
  | Continue (application_uid : string)
  | Halt (e : error).

(** [Run]: submit the application ([created] is the uid of the created
    application, or [None] for an error). *)
Definition run (label_uid : string) (ApplicationMetadata : option (gmap string value))
    (build_time : string) (created : option string) : outcome * list event :=
  let pre := [Api (CallCreateApplication label_uid (metadata ApplicationMetadata build_time))] in
  match created with
  | None => (Halt ErrApplicationCreation, pre)
  | Some uid => (Continue uid, pre)
  end.

End CreateApp.

(* ------------------------------------------------------------------ *)
(** ** StepCleanup.Cleanup (step_cleanup.go) *)

Module Cleanup.

(** Answer of [GetApplicationState] in the cleanup loop. *)
Inductive state_resp :=
  | StErr
  | StOk (status : string).

(** The 10 s polling loop under the 2 min deadline: every exit returns. *)
Fixpoint wait_deallocated (uid : string) (ticks : list state_resp) : list event :=
  match ticks with
  | [] => []
  | StErr :: _ => [Api (CallGetApplicationState uid)]
  | StOk st :: rest =>
      Api (CallGetApplicationState uid) ::
        (if String.eqb st "DEALLOCATED" || String.eqb st "RECALLED" then []
         else if String.eqb st "ERROR" then []
         else wait_deallocated uid rest)
  end.

(** [Cleanup]: the state keys ["api_client"] and ["application"] are
    [has_client] and [application]; [dealloc_ok] is whether the
    deallocation request returned no error.  step_cleanup.go is written
    against the REST client ([DeallocateApplication(uid)] on an
    [*Application]); either client sends one deallocation request for
    the uid, which is what is modelled. *)
Definition cleanup (has_client : bool) (application : option string) (dealloc_ok : bool)
    (ticks : list state_resp) : list event :=
  if negb has_client then []
  else
    match application with
    | None => []
    | Some uid =>
        Api (CallDeallocateApplication uid) ::
          (if dealloc_ok then wait_deallocated uid ticks else [])
    end.

End Cleanup.

(* ------------------------------------------------------------------ *)
(** ** Builder.Run and the multistep runner (builder.go) *)

Module Builder.

(** The state bag, one field per key the steps use. *)
Record State := {
  api_client : bool;
  selected_label : option Label;
  application : option string;
  application_resource : option Wait.Resource;
  ssh_host : option string;
  ssh_port : option Z;
  generated_data : gmap string string;
  err : option error;
}.

Definition initial_state : State := {|
  api_client := false; selected_label := None; application := None;
  application_resource := None; ssh_host := None; ssh_port := None;
  generated_data := ∅; err := None |}.

(** The configuration fields the steps read, and
    [PackerConfig.PackerOnError] (the -on-error option), which
    [commonsteps.NewRunner] reads. *)
Record Config := {
  LabelName : string;
  LabelVersion : string;
  ApplicationMetadata : option (gmap string value);
  Communicator : SetupSSH.CommConfig;
  PackerOnError : string;
}.

(** The answer to the prompt of an [askStep] (-on-error=ask) after its
    step halted: clean up, abort, or retry the step.  After a retry,
    the calls of the repeated [Run] and of everything after it are
    answered by the script [next]. *)
Inductive ask_answer (E : Type) :=
  | AskCleanup
  | AskAbort
  | AskRetry (next : E).
Arguments AskCleanup {E}.
Arguments AskAbort {E}.
Arguments AskRetry {E} next.

(** The service (and the external communicator and provisioners), as
    the script of answers the calls of one run receive, with the
    user's answer to the -on-error=ask prompt. *)
Inductive Env := Build_Env {
  connect_ok : bool;
  labels_resp : option (list Label);
  create_app_resp : option string;
  wait_ticks : list (Wait.tick Wait.Status);
  access_resp : SetupSSH.access_resp;
  ssh_connect_ok : bool;
  provision_ok : bool;
  task_create_resp : option string;
  task_ticks : list Image.task_resp;
  dealloc_ok : bool;
  cleanup_ticks : list Cleanup.state_resp;
  build_time : string;
  ask_reply : ask_answer Env;
}.

Inductive Step :=
  | StepCleanup
  | StepConnectAPI
  | StepFindLabel
  | StepCreateApplication
  | StepWaitForAllocation
  | StepSetupSSH
  | StepConnectSSH
  | StepProvision
  | StepCreateImage.

(** The step list of [Builder.Run], cleanup first. *)
Definition steps : list Step :=
  [StepCleanup; StepConnectAPI; StepFindLabel; StepCreateApplication;
   StepWaitForAllocation; StepSetupSSH; StepConnectSSH; StepProvision;
   StepCreateImage].

Inductive StepAction := ActionContinue | ActionHalt.

Definition halt (s : State) (e : error) : State :=
  {| api_client := api_client s; selected_label := selected_label s;
     application := application s; application_resource := application_resource s;
     ssh_host := ssh_host s; ssh_port := ssh_port s;
     generated_data := generated_data s; err := Some e |}.

Definition set_api_client (s : State) : State :=
  {| api_client := true; selected_label := selected_label s;
     application := application s; application_resource := application_resource s;
     ssh_host := ssh_host s; ssh_port := ssh_port s;
     generated_data := generated_data s; err := err s |}.

Definition set_selected_label (s : State) (l : Label) : State :=
  {| api_client := api_client s; selected_label := Some l;
     application := application s; application_resource := application_resource s;
     ssh_host := ssh_host s; ssh_port := ssh_port s;
     generated_data := generated_data s; err := err s |}.

Definition set_application (s : State) (uid : string) : State :=
  {| api_client := api_client s; selected_label := selected_label s;
     application := Some uid; application_resource := application_resource s;
     ssh_host := ssh_host s; ssh_port := ssh_port s;
     generated_data := <["ApplicationUID" := uid]> (generated_data s); err := err s |}.

Definition set_resource (s : State) (r : Wait.Resource) : State :=
  {| api_client := api_client s; selected_label := selected_label s;
     application := application s; application_resource := Some r;
     ssh_host := ssh_host s; ssh_port := ssh_port s;
     generated_data := <["ResourceUID" := Wait.ResourceUID r]> (generated_data s);
     err := err s |}.

Definition set_ssh (s : State) (h : string) (p : Z) : State :=
  {| api_client := api_client s; selected_label := selected_label s;
     application := application s; application_resource := application_resource s;
     ssh_host := Some h; ssh_port := Some p;
     generated_data := <["SSHPort" := Go.Itoa p]> (<["SSHHost" := h]> (generated_data s));
     err := err s |}.

(** [Run] of each step.  A [state.Get(k).(T)] on a missing key panics
    in Go; the step order of [steps] never gets there, and it is
    written as a halt with [ErrMissingState k], checked in the order of
    the source (["api_client"] first).  The SSH communicator
    and the provisioners are external steps: [ssh_connect_ok] and
    [provision_ok] say whether they continue. *)
Definition step_run (cfg : Config) (env : Env) (st : Step) (s : State)
    : StepAction * State * list event :=
  match st with
  | StepCleanup => (ActionContinue, s, [])
  | StepConnectAPI =>
      if connect_ok env
      then (ActionContinue, set_api_client s, [Api CallGetCurrentUser; Api CallSubscribe])
      else (ActionHalt, halt s ErrAPIConnection, [Api CallGetCurrentUser])
  | StepFindLabel =>
      if negb (api_client s) then (ActionHalt, halt s (ErrMissingState "api_client"), []) else
      let ev := [Api (CallGetLabels (LabelName cfg) (FindLabel.query_version (LabelVersion cfg)))] in
      match FindLabel.Run (LabelName cfg) (LabelVersion cfg) (labels_resp env) with
      | FindLabel.Continue l => (ActionContinue, set_selected_label s l, ev)
      | FindLabel.Halt e => (ActionHalt, halt s e, ev)
      end
  | StepCreateApplication =>
      if negb (api_client s) then (ActionHalt, halt s (ErrMissingState "api_client"), []) else
      match selected_label s with
      | None => (ActionHalt, halt s (ErrMissingState "selected_label"), [])
      | Some l =>
          let '(o, ev) := CreateApp.run (UID l) (ApplicationMetadata cfg) (build_time env)
                            (create_app_resp env) in
          match o with
          | CreateApp.Continue uid => (ActionContinue, set_application s uid, ev)
          | CreateApp.Halt e => (ActionHalt, halt s e, ev)
          end
      end
  | StepWaitForAllocation =>
      if negb (api_client s) then (ActionHalt, halt s (ErrMissingState "api_client"), []) else
      match application s with
      | None => (ActionHalt, halt s (ErrMissingState "application"), [])
      | Some uid =>
          let '(o, ev) := Wait.run_v2 uid (wait_ticks env) in
          match o with
          | Wait.Done r => (ActionContinue, set_resource s r, ev)
          | Wait.Halt e => (ActionHalt, halt s e, ev)
          end
      end
  | StepSetupSSH =>
      if negb (api_client s) then (ActionHalt, halt s (ErrMissingState "api_client"), []) else
      match application_resource s with
      | None => (ActionHalt, halt s (ErrMissingState "application_resource"), [])
      | Some r =>
          let '(o, ev) := SetupSSH.run_v2 (Communicator cfg) (Wait.ResourceUID r) (access_resp env) in
          match o with
          | SetupSSH.Continue h p => (ActionContinue, set_ssh s h p, ev)
          | SetupSSH.Halt e => (ActionHalt, halt s e, ev)
          end
      end
  | StepConnectSSH =>
      if ssh_connect_ok env then (ActionContinue, s, [])
      else (ActionHalt, halt s (ErrStep "StepConnectSSH"), [])
  | StepProvision =>
      if provision_ok env then (ActionContinue, s, [])
      else (ActionHalt, halt s (ErrStep "StepProvision"), [])
  | StepCreateImage =>
      if negb (api_client s) then (ActionHalt, halt s (ErrMissingState "api_client"), []) else
      match application s with
      | None => (ActionHalt, halt s (ErrMissingState "application"), [])
      | Some uid =>
          let '(o, ev) := Image.run_v2 uid (task_create_resp env) (task_ticks env) in
          match o with
          | Image.Continue _ => (ActionContinue, s, ev)
          | Image.Halt e => (ActionHalt, halt s e, ev)
          end
      end
  end.

(** [Cleanup] of each step: only [StepCleanup] does anything. *)
Definition step_cleanup (env : Env) (st : Step) (s : State) : list event :=
  match st with
  | StepCleanup =>
      Cleanup.cleanup (api_client s) (application s) (dealloc_ok env) (cleanup_ticks env)
  | _ => []
  end.

(** The forward pass of the multistep [BasicRunner]: run the steps in
    order, stop after the first halt; [ran] collects the steps whose
    [Run] was called, most recent first (each one [defer]s its
    [Cleanup]). *)
Fixpoint run_forward (cfg : Config) (env : Env) (sts : list Step) (s : State)
    (ran : list Step) : State * list event * list Step :=
  match sts with
  | [] => (s, [], ran)
  | st :: rest =>
      let '(act, s', ev) := step_run cfg env st s in
      match act with
      | ActionHalt => (s', ev, st :: ran)
      | ActionContinue =>
          let '(s'', ev', ran') := run_forward cfg env rest s' (st :: ran) in
          (s'', ev ++ ev', ran')
      end
  end.

(** The deferred cleanups, in reverse order of [Run], on the final state. *)
Definition run_cleanups (env : Env) (ran : list Step) (s : State) : list event :=
  flat_map (fun st => step_cleanup env st s) ran.

(** How [commonsteps.NewRunner] wraps the steps, by [PackerOnError]:
    not at all for [""] and ["cleanup"] (its switch has no default
    case, so any other value leaves them unwrapped too), in [abortStep]
    for ["abort"] and ["run-cleanup-provisioner"], in [askStep] for
    ["ask"].  The runner it returns is a [BasicRunner] over these
    steps ([PackerDebug] only adds pauses between them). *)
Inductive wrapping := NoWrap | WrapAbort | WrapAsk.

Definition NewRunner (PackerOnError : string) : wrapping :=
  if String.eqb PackerOnError "abort" then WrapAbort
  else if String.eqb PackerOnError "ask" then WrapAsk
  else if String.eqb PackerOnError "run-cleanup-provisioner" then WrapAbort
  else NoWrap.

(** [askStep.Run]: run the step; after a halt, ask.  [AskCleanup]
    returns the halt; [AskAbort] also puts ["aborted"] (the flag
    returned); [AskRetry next] runs the step again on the state the
    halted attempt left, its ["error"] included, under the script
    [next].  The script in force afterwards is returned. *)
Fixpoint ask_run (cfg : Config) (env : Env) (st : Step) (s : State)
    : StepAction * State * list event * Env * bool :=
  let '(act, s', ev) := step_run cfg env st s in
  match act with
  | ActionContinue => (ActionContinue, s', ev, env, false)
  | ActionHalt =>
      match ask_reply env with
      | AskCleanup => (ActionHalt, s', ev, env, false)
      | AskAbort => (ActionHalt, s', ev, env, true)
      | AskRetry next =>
          let '(act', s'', ev', env', aborted) := ask_run cfg next st s' in
          (act', s'', ev ++ ev', env', aborted)
      end
  end.

(** [Run] of a wrapped step: [askStep] when [asks], else [abortStep],
    whose [Run] is the step's own. *)
Definition wrapped_run (cfg : Config) (asks : bool) (env : Env) (st : Step) (s : State)
    : StepAction * State * list event * Env * bool :=
  if asks then ask_run cfg env st s
  else let '(act, s', ev) := step_run cfg env st s in (act, s', ev, env, false).

(** The forward pass of the [BasicRunner] over wrapped steps, as
    [run_forward], also giving the script in force at the end, whether
    a step halted (the runner then puts [StateHalted]) and whether the
    user aborted. *)
Fixpoint run_forward_wrapped (cfg : Config) (asks : bool) (env : Env) (sts : list Step)
    (s : State) (ran : list Step) : State * list event * list Step * Env * bool * bool :=
  match sts with
  | [] => (s, [], ran, env, false, false)
  | st :: rest =>
      let '(act, s', ev, env', aborted) := wrapped_run cfg asks env st s in
      match act with
      | ActionHalt => (s', ev, st :: ran, env', true, aborted)
      | ActionContinue =>
          let '(s'', ev', ran', env'', halted, aborted') :=
            run_forward_wrapped cfg asks env' rest s' (st :: ran) in
          (s'', ev ++ ev', ran', env'', halted, aborted')
      end
  end.

Inductive result :=
  | Failed (e : error)
  | Artifact (generated_data : gmap string string).

(** The end of [Builder.Run]: the ["error"] of the state bag, if any,
    else the artifact with the generated data. *)
Definition result_of (s : State) : result :=
  match err s with
  | Some e => Failed e
  | None => Artifact (generated_data s)
  end.

(** [Builder.Run]: the result, the final state and every event.  The
    deferred [Cleanup] of an [abortStep] calls the step's own only when
    the state holds neither [StateHalted] nor [StateCancelled]
    ([handleAbortsAndInterupts]); that of an [askStep] does so too once
    ["aborted"] is set, and otherwise always.  Skipped cleanups do not
    change the result, read from the state afterwards.  Cancellation
    is not modelled. *)
Definition Run (cfg : Config) (env : Env) : result * State * list event :=
  match NewRunner (PackerOnError cfg) with
  | NoWrap =>
      let '(s, ev, ran) := run_forward cfg env steps initial_state [] in
      (result_of s, s, ev ++ run_cleanups env ran s)
  | WrapAbort =>
      let '(s, ev, ran, env', halted, _) :=
        run_forward_wrapped cfg false env steps initial_state [] in
      (result_of s, s, ev ++ (if halted then [] else run_cleanups env' ran s))
  | WrapAsk =>
      let '(s, ev, ran, env', _, aborted) :=
        run_forward_wrapped cfg true env steps initial_state [] in
      (result_of s, s, ev ++ (if aborted then [] else run_cleanups env' ran s))
  end.

(** The uids of the deallocation requests among [evs]. *)
Definition deallocations (evs : list event) : list string :=
  omap (fun e => match e with
                 | Api (CallDeallocateApplication uid) => Some uid
                 | _ => None
                 end) evs.

End Builder.

(* ------------------------------------------------------------------ *)
(** ** basicAuth and connectHTTPClient.Do (api_client.go) *)

(** [base64.StdEncoding]: the standard alphabet, with [=] padding.  A
    Go string is its bytes; a Rocq [ascii] is one byte. *)
Module Base64.

Definition alphabet : string :=
  "ABCDEFGHIJKLMNOPQRSTUVWXYZabcdefghijklmnopqrstuvwxyz0123456789+/".

Definition enc (n : Z) : ascii :=
  match String.get (Z.to_nat n) alphabet with Some c => c | None => "="%char end.

Definition byte (x : ascii) : Z := Z.of_N (N_of_ascii x).

(** [EncodeToString]: every 3 bytes give 4 characters; a final group
    of 1 or 2 bytes is padded with [=]. *)
Fixpoint EncodeToString (l : list ascii) : string :=
  match l with
  | x :: y :: z :: rest =>
      let a := byte x in let b := byte y in let c := byte z in
      String (enc (a / 4)) (String (enc ((a mod 4) * 16 + b / 16))
        (String (enc ((b mod 16) * 4 + c / 64)) (String (enc (c mod 64))
          (EncodeToString rest))))
  | [x; y] =>
      let a := byte x in let b := byte y in
      String (enc (a / 4)) (String (enc ((a mod 4) * 16 + b / 16))
        (String (enc ((b mod 16) * 4)) (String "="%char EmptyString)))
  | [x] =>
      let a := byte x in
      String (enc (a / 4)) (String (enc ((a mod 4) * 16))
        (String "="%char (String "="%char EmptyString)))
  | [] => EmptyString
  end.

Fixpoint index_of (c : ascii) (s : string) (i : Z) : option Z :=
  match s with
  | EmptyString => None
  | String d t => if Ascii.eqb c d then Some i else index_of c t (i + 1)
  end.

Definition dec (c : ascii) : option Z := index_of c alphabet 0.

Definition unbyte (n : Z) : ascii := ascii_of_N (Z.to_N n).

(** [DecodeString] on padded input, as the receiving side of the
    Authorization header reads it; [None] is a malformed input. *)
Fixpoint DecodeString (s : string) : option (list ascii) :=
  match s with
  | EmptyString => Some []
  | String c1 (String c2 (String c3 (String c4 rest))) =>
      match dec c1, dec c2 with
      | Some s0, Some s1 =>
          if Ascii.eqb c4 "="%char then
            match rest with
            | EmptyString =>
                if Ascii.eqb c3 "="%char then Some [unbyte (s0 * 4 + s1 / 16)]
                else match dec c3 with
                     | Some s2 => Some [unbyte (s0 * 4 + s1 / 16);
                                        unbyte ((s1 mod 16) * 16 + s2 / 4)]
                     | None => None
                     end
            | _ => None
            end
          else
            match dec c3, dec c4, DecodeString rest with
            | Some s2, Some s3, Some r =>
                Some (unbyte (s0 * 4 + s1 / 16) :: unbyte ((s1 mod 16) * 16 + s2 / 4) ::
                      unbyte ((s2 mod 4) * 64 + s3) :: r)
            | _, _, _ => None
            end
      | _, _ => None
      end
  | _ => None
  end.

End Base64.

Module Auth.

(** [basicAuth(user, pass)]. *)
Definition basicAuth (user pass : string) : string :=
  String.append "Basic "
    (Base64.EncodeToString (list_ascii_of_string (String.append user (String ":"%char pass)))).

(** The headers [connectHTTPClient.Do] adds to a request: the
    Authorization header, unless [authHeader] is empty. *)
Definition Do_headers (authHeader : string) : list (string * string) :=
  if String.eqb authHeader EmptyString then [] else [("Authorization", authHeader)].

(** [NewAPIClient]: the header every request of the client carries. *)
Definition client_headers (username password : string) : list (string * string) :=
  Do_headers (basicAuth username password).

End Auth.

(* ------------------------------------------------------------------ *)
(** ** The REST client (part_002) *)

Module Rest.

(** What the HTTP round trip of [makeRequest] gives: an error (of
    [http.Client.Do], or one of [makeRequest]'s own), or a status code
    with the body decoded as the expected JSON type ([None] when
    [json.NewDecoder(resp.Body).Decode] fails). *)
Inductive answer (T : Type) :=
  | TransportErr
  | Answer (StatusCode : Z) (body : option T).
Arguments TransportErr {T}.
Arguments Answer {T} StatusCode body.

Inductive rest_error :=
  | ErrTransport
  | ErrStatus (code : Z)
  | ErrDecode.

(** The [body any] argument of [makeRequest]: none, a (possibly nil)
    [*url.Values], or a struct marshalled to JSON. *)
Inductive body :=
  | NoBody
  | QueryValues (v : option (list (string * string)))
  | JSONBody.

(** What [makeRequest] does: send a request, return the error
    "invalid base URL" without sending anything, or panic.  The query
    pairs are listed in the order they were added ([Encode] sorts them
    by key). *)
Inductive request :=
  | Request (method endpoint : string) (query : list (string * string)) (json_body : bool)
  | InvalidBaseURL
  | Panic.

(** [makeRequest]: [base_ok] says whether [url.Parse(c.BaseURL)]
    succeeds; when it fails, the error is returned first.  Then a
    [*url.Values] body of a non-POST request becomes the query.  A nil
    [*url.Values] stored in the [any] argument is not a nil interface,
    so [body != nil] holds and [queryParams.Encode()] dereferences the
    nil pointer.  [json.Marshal] of the bodies and [http.NewRequest]
    are taken to succeed. *)
Definition makeRequest (base_ok : bool) (method endpoint : string) (b : body) : request :=
  if base_ok then
    match b with
    | NoBody => Request method endpoint [] false
    | QueryValues v =>
        if String.eqb method "POST" then Request method endpoint [] true
        else match v with
             | Some q => Request method endpoint q false
             | None => Panic
             end
    | JSONBody => Request method endpoint [] true
    end
  else InvalidBaseURL.

(** [GetLabels(name, version)]: the request. *)
Definition GetLabels_request (base_ok : bool) (name version : string) : request :=
  let queryParams :=
    if negb (String.eqb name "") || negb (String.eqb version "")
    then Some ((if negb (String.eqb name "") then [("name", name)] else []) ++
               (if negb (String.eqb version "") then [("version", version)] else []))
    else None in
  makeRequest base_ok "GET" "/api/v1/label/" (QueryValues queryParams).

(** [GetApplicationResourceAccess(resourceUID)]: the request. *)
Definition GetApplicationResourceAccess_request (base_ok : bool) (resourceUID : string)
    : request :=
  makeRequest base_ok "GET"
    (String.append "/api/v1/applicationresource/" (String.append resourceUID "/access"))
    (QueryValues (Some [("one_time", "false")])).

(** The answer handling of [GetLabels], [CreateApplication],
    [GetApplicationState], [CreateApplicationTask] and
    [GetApplicationTask]: only 200 with a decodable body succeeds. *)
Definition decode_ok {T : Type} (r : answer T) : rest_error + T :=
  match r with
  | TransportErr => inl ErrTransport
  | Answer code b =>
      if Z.eqb code 200 then
        match b with Some v => inr v | None => inl ErrDecode end
      else inl (ErrStatus code)
  end.

(** The answer handling of [GetApplicationResource] and
    [GetApplicationResourceAccess]: a 404 is [nil, nil]. *)
Definition decode_ok_or_404 {T : Type} (r : answer T) : rest_error + option T :=
  match r with
  | TransportErr => inl ErrTransport
  | Answer code b =>
      if Z.eqb code 200 then
        match b with Some v => inr (Some v) | None => inl ErrDecode end
      else if Z.eqb code 404 then inr None
      else inl (ErrStatus code)
  end.

(** The answer handling of [DeallocateApplication]: no body is read on
    success. *)
Definition status_only {T : Type} (r : answer T) : option rest_error :=
  match r with
  | TransportErr => Some ErrTransport
  | Answer code _ => if Z.eqb code 200 then None else Some (ErrStatus code)
  end.

Definition GetLabels (r : answer (list Label)) : rest_error + list Label := decode_ok r.
Definition GetApplicationState (r : answer string) : rest_error + string := decode_ok r.
Definition GetApplicationTask {T : Type} (r : answer T) : rest_error + T := decode_ok r.
Definition GetApplicationResource (r : answer Wait.Resource) : rest_error + option Wait.Resource :=
  decode_ok_or_404 r.
Definition GetApplicationResourceAccess (r : answer SetupSSH.Access)
    : rest_error + option SetupSSH.Access :=
  decode_ok_or_404 r.
Definition DeallocateApplication {T : Type} (r : answer T) : option rest_error := status_only r.

(** How the polling steps of this generation read the two 404-aware
    calls: an error, nothing yet, or the value. *)
Definition access_of (r : rest_error + option SetupSSH.Access) : SetupSSH.access_resp :=
  match r with
  | inl _ => SetupSSH.AccErr
  | inr a => SetupSSH.AccOk a
  end.

Definition resource_of (r : rest_error + option Wait.Resource) : Wait.resource_resp :=
  match r with
  | inl _ => Wait.ResErr
  | inr None => Wait.ResNone
  | inr (Some res) => Wait.ResSome res
  end.

End Rest.

(* ------------------------------------------------------------------ *)
(** ** Builder.Prepare (builder.go) *)

Module Prepare.

(** The fields of [Config] that [Prepare] reads or writes; [CommType]
    is [Communicator.Type]. *)
Record Config := {
  Endpoint : string;
  Username : string;
  Password : string;
  LabelName : string;
  ConnectionTimeout : string;
  ConnectionRetries : Z;
  AllocationTimeout : string;
  CommType : string;
  connectionTimeoutDuration : Z;
  allocationTimeoutDuration : Z;
}.

(** One constructor per error [Prepare] returns. *)
Inductive prepare_error :=
  | ErrConfigDecode
  | ErrInvalidConnectionTimeout
  | ErrInvalidAllocationTimeout
  | ErrEndpointRequired
  | ErrUsernameRequired
  | ErrPasswordRequired
  | ErrLabelNameRequired.

Definition generatedVars : list string :=
  ["ApplicationUID"; "ResourceUID"; "SSHHost"; "SSHPort"].

Section Prepare.
(** [time.ParseDuration]: the duration in nanoseconds, or [None] on
    an error. *)
Variable ParseDuration : string -> option Z.

(** The three defaults, in the order of the source. *)
Definition set_defaults (c : Config) : Config :=
  {| Endpoint := Endpoint c; Username := Username c; Password := Password c;
     LabelName := LabelName c;
     ConnectionTimeout := if String.eqb (ConnectionTimeout c) "" then "30m" else ConnectionTimeout c;
     ConnectionRetries := SetupSSH.prepared_retries (ConnectionRetries c);
     AllocationTimeout := if String.eqb (AllocationTimeout c) "" then "10m" else AllocationTimeout c;
     CommType := CommType c;
     connectionTimeoutDuration := connectionTimeoutDuration c;
     allocationTimeoutDuration := allocationTimeoutDuration c |}.

Definition set_durations (c : Config) (ct at' : Z) : Config :=
  {| Endpoint := Endpoint c; Username := Username c; Password := Password c;
     LabelName := LabelName c; ConnectionTimeout := ConnectionTimeout c;
     ConnectionRetries := ConnectionRetries c; AllocationTimeout := AllocationTimeout c;
     CommType := CommType c;
     connectionTimeoutDuration := ct; allocationTimeoutDuration := at' |}.

Definition set_comm_type (c : Config) : Config :=
  {| Endpoint := Endpoint c; Username := Username c; Password := Password c;
     LabelName := LabelName c; ConnectionTimeout := ConnectionTimeout c;
     ConnectionRetries := ConnectionRetries c; AllocationTimeout := AllocationTimeout c;
     CommType := if String.eqb (CommType c) "" then "ssh" else CommType c;
     connectionTimeoutDuration := connectionTimeoutDuration c;
     allocationTimeoutDuration := allocationTimeoutDuration c |}.

(** [Prepare], from the result of [config.Decode] ([None] on its
    error) to the error or the prepared configuration with the
    generated variables.  The warnings are always nil. *)
Definition Prepare (decoded : option Config) : prepare_error + (Config * list string) :=
  match decoded with
  | None => inl ErrConfigDecode
  | Some c0 =>
      let c := set_defaults c0 in
      match ParseDuration (ConnectionTimeout c) with
      | None => inl ErrInvalidConnectionTimeout
      | Some ct =>
          match ParseDuration (AllocationTimeout c) with
          | None => inl ErrInvalidAllocationTimeout
          | Some at' =>
              let c := set_durations c ct at' in
              if String.eqb (Endpoint c) "" then inl ErrEndpointRequired
              else if String.eqb (Username c) "" then inl ErrUsernameRequired
              else if String.eqb (Password c) "" then inl ErrPasswordRequired
              else if String.eqb (LabelName c) "" then inl ErrLabelNameRequired
              else inr (set_comm_type c, generatedVars)
          end
      end
  end.

End Prepare.

End Prepare.

(** [host(state)]: the ["ssh_host"] key, or the error. *)
Definition host (s : Builder.State) : option string := Builder.ssh_host s.

(* ================================================================== *)
(** * Properties *)

(* ------------------------------------------------------------------ *)
(** ** The wait loop *)

Section WaitLoop.
Context {S : Type}.
Variable status_eqb : S -> S -> bool.
Variable status_name : S -> string.
Variable branch_of : S -> Wait.branch.
Variable uid : string.

Abbreviation loop := (Wait.loop status_eqb status_name branch_of uid).

Definition next_last (st last : S) : S :=
  if negb (status_eqb st last) then st else last.

Lemma loop_tick_waiting last st d r rest :
  branch_of st = Wait.BrIntermediate \/ branch_of st = Wait.BrUnknown ->
  fst (loop last (Wait.Tick st d r :: rest)) = fst (loop (next_last st last) rest).
Proof.
  intros [H | H]; cbn; rewrite H; reflexivity.
Qed.

Lemma loop_tick_unknown_says last st d r rest :
  branch_of st = Wait.BrUnknown ->
  In (Say (String.append "Unknown application status: " (status_name st)))
     (snd (loop last (Wait.Tick st d r :: rest))).
Proof.
  intros H; cbn; rewrite H; cbn.
  right. apply in_or_app; left. apply in_or_app; right. left; reflexivity.
Qed.

Lemma loop_tick_failed last st d r rest :
  branch_of st = Wait.BrFailed ->
  fst (loop last (Wait.Tick st d r :: rest)) = Wait.Halt (ErrApplicationFailed (status_name st)).
Proof. intros H; cbn; rewrite H; reflexivity. Qed.

Lemma loop_tick_allocated last st d r rest :
  branch_of st = Wait.BrAllocated ->
  fst (loop last (Wait.Tick st d r :: rest)) =
    match r with
    | Wait.ResErr => Wait.Halt ErrGetApplicationResource
    | Wait.ResNone => fst (loop (next_last st last) rest)
    | Wait.ResSome res => Wait.Done res
    end.
Proof. intros H; cbn; rewrite H; destruct r; reflexivity. Qed.

Definition waiting_tick (t : Wait.tick S) : Prop :=
  exists st d r, t = Wait.Tick st d r /\
    (branch_of st = Wait.BrIntermediate \/ branch_of st = Wait.BrUnknown).

Lemma loop_deadline_after_waiting (pre : list (Wait.tick S)) rest last :
  Forall waiting_tick pre ->
  loop last (pre ++ Wait.Deadline :: rest) = loop last pre.
Proof.
  revert last; induction pre as [| t pre IH]; intros last Hpre.
  - reflexivity.
  - inversion Hpre as [| ? ? [st [d [r [-> Hbr]]]] Hrest]; subst.
    cbn [app Wait.loop].
    destruct Hbr as [Hbr | Hbr]; rewrite Hbr; rewrite IH by exact Hrest; reflexivity.
Qed.

End WaitLoop.

Lemma branch_legacy_cases (s : string) :
  (In s ["NEW"; "ELECTED"; "DEALLOCATE"] -> Wait.branch_legacy s = Wait.BrIntermediate) /\
  (s = "ALLOCATED" -> Wait.branch_legacy s = Wait.BrAllocated) /\
  (In s ["ERROR"; "DEALLOCATED"; "RECALLED"] -> Wait.branch_legacy s = Wait.BrFailed) /\
  (~ In s ["NEW"; "ELECTED"; "DEALLOCATE"; "ALLOCATED"; "ERROR"; "DEALLOCATED"; "RECALLED"] ->
     Wait.branch_legacy s = Wait.BrUnknown).
Proof.
  split; [| split; [| split]].
  - intros H; repeat (destruct H as [<- | H]; [reflexivity |]); destruct H.
  - intros ->; reflexivity.
  - intros H; repeat (destruct H as [<- | H]; [reflexivity |]); destruct H.
  - intros Hn. unfold Wait.branch_legacy.
    destruct (String.eqb s "ALLOCATED") eqn:E1.
    { apply String.eqb_eq in E1; subst; exfalso; apply Hn; simpl; tauto. }
    destruct (existsb (String.eqb s) ["ERROR"; "DEALLOCATED"; "RECALLED"]) eqn:E2.
    { apply existsb_exists in E2 as [x [Hx Hxe]]. apply String.eqb_eq in Hxe; subst.
      exfalso; apply Hn; simpl in *; tauto. }
    destruct (existsb (String.eqb s) ["NEW"; "ELECTED"; "DEALLOCATE"]) eqn:E3.
    { apply existsb_exists in E3 as [x [Hx Hxe]]. apply String.eqb_eq in Hxe; subst.
      exfalso; apply Hn; simpl in *; tauto. }
    reflexivity.
Qed.

(** C1 (amended).  Neither generation of Wait-For-Ready aborts on all of
    ERROR, DEALLOCATED, DEALLOCATE and RECALLED.  The gRPC generation
    (step_wait_for_allocation.go) keeps waiting on NEW and ELECTED, takes
    the success path on ALLOCATED, aborts on ERROR, DEALLOCATED and
    DEALLOCATE, and treats every other enum value as unknown.  The REST
    generation (part_005) keeps waiting on NEW, ELECTED and DEALLOCATE,
    takes the success path on ALLOCATED, aborts on ERROR, DEALLOCATED and
    RECALLED, and treats every other string as unknown.  In both loops an
    intermediate or unknown status moves on to the next tick, an unknown
    one also prints "Unknown application status", a failure status halts
    with "application failed", and ALLOCATED with the resource present
    ends the step with that resource. *)
Theorem wait_status_handling :
  (Wait.branch_v2 Wait.NEW = Wait.BrIntermediate /\
   Wait.branch_v2 Wait.ELECTED = Wait.BrIntermediate /\
   Wait.branch_v2 Wait.ALLOCATED = Wait.BrAllocated /\
   Wait.branch_v2 Wait.ERROR = Wait.BrFailed /\
   Wait.branch_v2 Wait.DEALLOCATED = Wait.BrFailed /\
   Wait.branch_v2 Wait.DEALLOCATE = Wait.BrFailed /\
   Wait.branch_v2 Wait.UNSPECIFIED = Wait.BrUnknown /\
   (forall n, Wait.branch_v2 (Wait.OtherStatus n) = Wait.BrUnknown)) /\
  (forall s : string,
    (In s ["NEW"; "ELECTED"; "DEALLOCATE"] -> Wait.branch_legacy s = Wait.BrIntermediate) /\
    (s = "ALLOCATED" -> Wait.branch_legacy s = Wait.BrAllocated) /\
    (In s ["ERROR"; "DEALLOCATED"; "RECALLED"] -> Wait.branch_legacy s = Wait.BrFailed) /\
    (~ In s ["NEW"; "ELECTED"; "DEALLOCATE"; "ALLOCATED"; "ERROR"; "DEALLOCATED"; "RECALLED"] ->
       Wait.branch_legacy s = Wait.BrUnknown)) /\
  (forall (S : Type) (eqb : S -> S -> bool) (name : S -> string) (br : S -> Wait.branch)
          (uid : string) (last st : S) (d : string) (r : Wait.resource_resp)
          (rest : list (Wait.tick S)),
    let run := Wait.loop eqb name br uid last (Wait.Tick st d r :: rest) in
    let keep_waiting := fst (Wait.loop eqb name br uid (next_last eqb st last) rest) in
    (br st = Wait.BrIntermediate -> fst run = keep_waiting) /\
    (br st = Wait.BrUnknown ->
       fst run = keep_waiting /\
       In (Say (String.append "Unknown application status: " (name st))) (snd run)) /\
    (br st = Wait.BrFailed -> fst run = Wait.Halt (ErrApplicationFailed (name st))) /\
    (forall res, br st = Wait.BrAllocated -> r = Wait.ResSome res -> fst run = Wait.Done res)).
Proof.
  split; [repeat split; reflexivity |].
  split; [exact branch_legacy_cases |].
  intros S eqb name br uid last st d r rest run keep_waiting.
  subst run keep_waiting.
  split; [| split; [| split]].
  - intros H. apply loop_tick_waiting. left; exact H.
  - intros H. split.
    + apply loop_tick_waiting. right; exact H.
    + apply loop_tick_unknown_says; exact H.
  - apply loop_tick_failed.
  - intros res H ->. rewrite loop_tick_allocated by exact H. reflexivity.
Qed.

Lemma wait_status_handling_witness :
  Wait.branch_legacy "DEALLOCATE" = Wait.BrIntermediate /\
  Wait.branch_legacy "RECALLED" = Wait.BrFailed /\
  Wait.branch_legacy "PAUSED" = Wait.BrUnknown /\
  fst (Wait.run_v2 "app" [Wait.Tick Wait.ERROR "boom" Wait.ResNone]) =
    Wait.Halt (ErrApplicationFailed "ERROR").
Proof.
  destruct wait_status_handling as [_ [Hleg Hloop]].
  split; [apply (Hleg "DEALLOCATE"); simpl; tauto |].
  split; [apply (Hleg "RECALLED"); simpl; tauto |].
  split; [apply (Hleg "PAUSED"); simpl; intuition discriminate |].
  apply (Hloop Wait.Status (fun a b => bool_decide (a = b)) Wait.status_name_v2
           Wait.branch_v2 "app" Wait.UNSPECIFIED Wait.ERROR "boom" Wait.ResNone []).
  reflexivity.
Defined.

(** C1 counterexample: in the REST generation a DEALLOCATE status does
    not abort the workflow; the loop keeps polling until the deadline. *)
Lemma wait_deallocate_not_terminal :
  fst (Wait.run_legacy "app" [Wait.Tick "DEALLOCATE" "" Wait.ResNone; Wait.Deadline]) =
    Wait.Halt ErrAllocationTimeout /\
  fst (Wait.run_legacy "app" [Wait.Tick "DEALLOCATE" "" Wait.ResNone; Wait.Deadline]) <>
    Wait.Halt (ErrApplicationFailed "DEALLOCATE").
Proof. split; [reflexivity | discriminate]. Qed.

(** C9.  When every status the Wait-For-Ready loop sees before the
    allocation deadline is a keep-waiting one (never ALLOCATED, never a
    failure status), the loop stops at the deadline with the distinct
    "allocation timeout" error, and nothing after the deadline is
    polled: the run's events are those of the ticks before it. *)
Theorem wait_timeout_enforced (S : Type) (eqb : S -> S -> bool) (name : S -> string)
    (br : S -> Wait.branch) (uid : string) (last : S) (pre rest : list (Wait.tick S)) :
  Forall (waiting_tick br) pre ->
  fst (Wait.loop eqb name br uid last (pre ++ Wait.Deadline :: rest)) = Wait.Halt ErrAllocationTimeout /\
  snd (Wait.loop eqb name br uid last (pre ++ Wait.Deadline :: rest)) =
    snd (Wait.loop eqb name br uid last pre).
Proof.
  intros Hpre.
  rewrite (loop_deadline_after_waiting eqb name br uid pre rest last Hpre).
  split; [| reflexivity].
  revert last; induction pre as [| t pre IH]; intros last.
  - reflexivity.
  - inversion Hpre as [| ? ? [st [d [r [-> Hbr]]]] Hrest]; subst.
    rewrite (loop_tick_waiting eqb name br uid last st d r pre Hbr).
    apply IH; exact Hrest.
Qed.

Lemma wait_timeout_enforced_witness :
  Forall (waiting_tick Wait.branch_v2)
    [Wait.Tick Wait.NEW "" Wait.ResNone; Wait.Tick Wait.ELECTED "" Wait.ResNone] /\
  fst (Wait.loop (fun a b => bool_decide (a = b)) Wait.status_name_v2 Wait.branch_v2 "app"
         Wait.UNSPECIFIED
         ([Wait.Tick Wait.NEW "" Wait.ResNone; Wait.Tick Wait.ELECTED "" Wait.ResNone] ++
          Wait.Deadline :: [Wait.Tick Wait.ALLOCATED "" Wait.ResNone])) =
    Wait.Halt ErrAllocationTimeout.
Proof.
  assert (H : Forall (waiting_tick Wait.branch_v2)
    [Wait.Tick Wait.NEW "" Wait.ResNone; Wait.Tick Wait.ELECTED "" Wait.ResNone]).
  { repeat (apply List.Forall_cons; [eexists _, _, _; split; [reflexivity | left; reflexivity] |]).
    apply List.Forall_nil. }
  split; [exact H |].
  exact (proj1 (wait_timeout_enforced Wait.Status _ Wait.status_name_v2 Wait.branch_v2 "app"
                  Wait.UNSPECIFIED _ _ H)).
Defined.

(* ------------------------------------------------------------------ *)
(** ** The image step *)

Definition empty_result_tick (t : Image.task_resp) : Prop :=
  t = Image.TaskOk None \/ exists m, t = Image.TaskOk (Some m) /\ size m = 0%nat.

Lemma image_loop_skip_empty (task_uid : string) (pre rest : list Image.task_resp) :
  Forall empty_result_tick pre ->
  fst (Image.loop task_uid (pre ++ rest)) = fst (Image.loop task_uid rest).
Proof.
  induction pre as [| t pre IH]; intros Hpre; [reflexivity |].
  inversion Hpre as [| ? ? Ht Hrest]; subst.
  destruct Ht as [-> | [m [-> Hm]]]; cbn [app Image.loop].
  - cbn. apply IH; exact Hrest.
  - rewrite Hm. cbn. apply IH; exact Hrest.
Qed.

Lemma image_loop_nonempty (task_uid : string) (m : gmap string value) rest :
  size m <> 0%nat ->
  fst (Image.loop task_uid (Image.TaskOk (Some m) :: rest)) = Image.classify m.
Proof.
  intros Hm. cbn. destruct (Nat.eqb (size m) 0) eqn:E.
  - apply Nat.eqb_eq in E; contradiction.
  - reflexivity.
Qed.

Lemma is_str_true (v : value) (lit : string) : Image.is_str v lit = true -> v = VStr lit.
Proof.
  destruct v; cbn; try discriminate. intros H. apply String.eqb_eq in H. subst; reflexivity.
Qed.

(** C4.  Once the image task's result is non-empty (after any number of
    ticks with a nil or empty result), the step classifies it: a
    "status" of "success" or "completed" continues, "failed" or "error"
    halts with "image creation failed", and any other "status" value, or
    no "status" at all, continues. *)
Theorem image_result_classification (task_uid : string) (pre rest : list Image.task_resp)
    (m : gmap string value) :
  Forall empty_result_tick pre ->
  size m <> 0%nat ->
  let o := fst (Image.loop task_uid (pre ++ Image.TaskOk (Some m) :: rest)) in
  ((m !! "status" = Some (VStr "success") \/ m !! "status" = Some (VStr "completed")) ->
     o = Image.Continue m) /\
  ((m !! "status" = Some (VStr "failed") \/ m !! "status" = Some (VStr "error")) ->
     o = Image.Halt ErrImageFailed) /\
  (forall v, m !! "status" = Some v ->
     ~ In v [VStr "success"; VStr "completed"; VStr "failed"; VStr "error"] ->
     o = Image.Continue m) /\
  (m !! "status" = None -> o = Image.Continue m).
Proof.
  intros Hpre Hm o. subst o.
  rewrite image_loop_skip_empty by exact Hpre.
  rewrite image_loop_nonempty by exact Hm.
  unfold Image.classify.
  split; [| split; [| split]].
  - intros [H | H]; rewrite H; reflexivity.
  - intros [H | H]; rewrite H; reflexivity.
  - intros v H Hn. rewrite H.
    destruct (Image.is_str v "success") eqn:E1;
      [apply is_str_true in E1; subst; exfalso; apply Hn; simpl; tauto |].
    destruct (Image.is_str v "completed") eqn:E2;
      [apply is_str_true in E2; subst; exfalso; apply Hn; simpl; tauto |].
    destruct (Image.is_str v "failed") eqn:E3;
      [apply is_str_true in E3; subst; exfalso; apply Hn; simpl; tauto |].
    destruct (Image.is_str v "error") eqn:E4;
      [apply is_str_true in E4; subst; exfalso; apply Hn; simpl; tauto |].
    reflexivity.
  - intros H; rewrite H; reflexivity.
Qed.

Lemma image_result_classification_witness :
  fst (Image.loop "task" ([Image.TaskOk None] ++
         Image.TaskOk (Some {[ "status" := VNum 1 ]}) :: [])) =
    Image.Continue {[ "status" := VNum 1 ]}.
Proof.
  refine (proj1 (proj2 (proj2 (image_result_classification "task" [Image.TaskOk None] []
            {[ "status" := VNum 1 ]} _ _))) (VNum 1) _ _).
  - apply List.Forall_cons; [left; reflexivity | apply List.Forall_nil].
  - rewrite map_size_singleton. discriminate.
  - apply lookup_singleton_eq.
  - simpl. intuition discriminate.
Defined.

(* ------------------------------------------------------------------ *)
(** ** The label step *)

(** The latest-version loop either keeps its start (every version is at
    most [maxVersion]) or ends on the first label of greatest version,
    which beats [maxVersion]. *)
Lemma select_latest_spec (labels : list Label) (maxVersion : Z) (sel : option Label) :
  (Forall (fun x => Version x <= maxVersion) labels /\
   FindLabel.select_latest labels maxVersion sel = sel) \/
  (exists pre l post, labels = pre ++ l :: post /\ maxVersion < Version l /\
     Forall (fun x => Version x < Version l) pre /\
     Forall (fun x => Version x <= Version l) post /\
     FindLabel.select_latest labels maxVersion sel = Some l).
Proof.
  revert maxVersion sel; induction labels as [| x rest IH]; intros m sel.
  - left; split; [apply List.Forall_nil | reflexivity].
  - cbn [FindLabel.select_latest].
    destruct (m <? Version x) eqn:Hlt.
    + apply Z.ltb_lt in Hlt. right.
      destruct (IH (Version x) (Some x)) as [[Hall Heq] | [pre [l [post [-> [Hl [Hpre [Hpost Heq]]]]]]]].
      * exists [], x, rest. repeat split; auto.
      * exists (x :: pre), l, post.
        split; [reflexivity |]. split; [lia |].
        split; [apply List.Forall_cons; [lia | exact Hpre] |].
        split; [exact Hpost | exact Heq].
    + apply Z.ltb_ge in Hlt.
      destruct (IH m sel) as [[Hall Heq] | [pre [l [post [-> [Hl [Hpre [Hpost Heq]]]]]]]].
      * left. split; [apply List.Forall_cons; [lia | exact Hall] | exact Heq].
      * right. exists (x :: pre), l, post.
        split; [reflexivity |]. split; [lia |].
        split; [apply List.Forall_cons; [lia | exact Hpre] |].
        split; [exact Hpost | exact Heq].
Qed.

Definition label_v (v : Z) : Label :=
  {| UID := String.append "uid-" (Go.Itoa v); Name := "macos"; Version := v;
     Definitions := [{| Driver := "vmx" |}] |}.

(** C5 (amended).  Without a requested version, when some returned label
    has a version of at least 0, the step settles on the first label of
    greatest version (every label before it has a smaller version, none
    after it a greater one), and continues with it when it has
    definitions; for versions 1, 3, 2 it continues with version 3.
    Labels of negative version are never chosen: a non-empty result
    made only of them halts with "no suitable label found". *)
Theorem find_label_latest (LabelName : string) (labels : list Label) :
  (Exists (fun x => 0 <= Version x) labels ->
   exists pre l post, labels = pre ++ l :: post /\
     Forall (fun x => Version x < Version l) pre /\
     Forall (fun x => Version x <= Version l) post /\
     FindLabel.Run LabelName "" (Some labels) = FindLabel.check_selected (Some l)) /\
  (labels <> [] -> Forall (fun x => Version x < 0) labels ->
   FindLabel.Run LabelName "" (Some labels) = FindLabel.Halt ErrNoSuitableLabel) /\
  FindLabel.Run LabelName "" (Some [label_v 1; label_v 3; label_v 2]) =
    FindLabel.Continue (label_v 3).
Proof.
  split; [| split; [| reflexivity]].
  2:{ intros Hne Hneg.
      destruct labels as [| x xs] eqn:Hl; [contradiction |].
      rewrite <- Hl in *.
      assert (HRun : FindLabel.Run LabelName "" (Some labels) =
                     FindLabel.check_selected (FindLabel.select_latest labels (-1) None)).
      { subst labels; reflexivity. }
      rewrite HRun.
      destruct (select_latest_spec labels (-1) None)
        as [[_ Hsel] | [pre [l [post [Heq [Hlt _]]]]]].
      - rewrite Hsel. reflexivity.
      - exfalso. rewrite List.Forall_forall in Hneg.
        assert (Hin : In l labels) by (rewrite Heq; apply in_or_app; right; left; reflexivity).
        specialize (Hneg l Hin). lia. }
  intros Hex.
  destruct labels as [| x xs] eqn:Hl; [inversion Hex |].
  rewrite <- Hl in *.
  assert (HRun : FindLabel.Run LabelName "" (Some labels) =
                 FindLabel.check_selected (FindLabel.select_latest labels (-1) None)).
  { subst labels; reflexivity. }
  rewrite HRun.
  destruct (select_latest_spec labels (-1) None) as [[Hall _] | [pre [l [post [Heq [_ [Hpre [Hpost Hsel]]]]]]]].
  - exfalso. apply List.Exists_exists in Hex as [y [Hy Hy0]].
    rewrite List.Forall_forall in Hall. specialize (Hall y Hy). lia.
  - exists pre, l, post. rewrite Hsel. auto.
Qed.

Lemma find_label_latest_witness :
  exists pre l post, [label_v 2; label_v 5; label_v 5] = pre ++ l :: post /\
     Forall (fun x => Version x < Version l) pre /\
     Forall (fun x => Version x <= Version l) post /\
     FindLabel.Run "macos" "" (Some [label_v 2; label_v 5; label_v 5]) =
       FindLabel.check_selected (Some l).
Proof.
  apply (proj1 (find_label_latest "macos" [label_v 2; label_v 5; label_v 5])).
  apply Exists_cons_hd. simpl. lia.
Defined.

(** C5 counterexample: a label of version -1 is the greatest returned,
    yet the step selects nothing and halts with "no suitable label found". *)
Lemma find_label_negative_version :
  FindLabel.Run "macos" "" (Some [label_v (-1)]) = FindLabel.Halt ErrNoSuitableLabel.
Proof. reflexivity. Qed.

(** C6 (amended).  With a requested version string and a non-empty label
    list: a string that is not an integer halts with "invalid version
    format"; an integer that no label carries halts with "label version
    not found"; otherwise the first label of that version is chosen.  A
    failed query or an empty list halts before the version is parsed,
    with "label retrieval failed" or "label not found".  No label is
    selected when the step halts. *)
Theorem find_label_requested (LabelName LabelVersion : string) (labels : list Label) :
  LabelVersion <> "" ->
  (labels <> [] -> Go.Atoi LabelVersion = None ->
     FindLabel.Run LabelName LabelVersion (Some labels) = FindLabel.Halt ErrInvalidVersionFormat) /\
  (forall n, labels <> [] -> Go.Atoi LabelVersion = Some n ->
     Forall (fun x => Version x <> n) labels ->
     FindLabel.Run LabelName LabelVersion (Some labels) = FindLabel.Halt ErrLabelVersionNotFound) /\
  (forall n, Go.Atoi LabelVersion = Some n -> Exists (fun x => Version x = n) labels ->
     exists pre l post, labels = pre ++ l :: post /\ Version l = n /\
       Forall (fun x => Version x <> n) pre /\
       FindLabel.Run LabelName LabelVersion (Some labels) = FindLabel.check_selected (Some l)) /\
  FindLabel.Run LabelName LabelVersion (Some []) = FindLabel.Halt (ErrLabelNotFound LabelName) /\
  FindLabel.Run LabelName LabelVersion None = FindLabel.Halt ErrLabelRetrieval.
Proof.
  intros Hv.
  assert (Hne : String.eqb LabelVersion "" = false) by (apply String.eqb_neq; exact Hv).
  assert (HRun : forall x xs, FindLabel.Run LabelName LabelVersion (Some (x :: xs)) =
    match Go.Atoi LabelVersion with
    | None => FindLabel.Halt ErrInvalidVersionFormat
    | Some r => match FindLabel.select_version (x :: xs) r with
                | None => FindLabel.Halt ErrLabelVersionNotFound
                | Some l => FindLabel.check_selected (Some l)
                end
    end).
  { intros x xs. unfold FindLabel.Run. rewrite Hne. reflexivity. }
  split; [| split; [| split; [| split]]].
  - intros Hl Ha. destruct labels as [| x xs]; [contradiction |].
    rewrite HRun, Ha. reflexivity.
  - intros n Hl Ha Hall. destruct labels as [| x xs]; [contradiction |].
    rewrite HRun, Ha. unfold FindLabel.select_version.
    destruct (find _ (x :: xs)) as [l |] eqn:Hf; [| reflexivity].
    apply find_some in Hf as [Hin Hv']. apply Z.eqb_eq in Hv'.
    rewrite List.Forall_forall in Hall. exfalso; exact (Hall l Hin Hv').
  - intros n Ha Hex.
    induction labels as [| x xs IH]; [inversion Hex |].
    rewrite HRun, Ha. unfold FindLabel.select_version. cbn [find].
    destruct (Version x =? n) eqn:Hx.
    + apply Z.eqb_eq in Hx. exists [], x, xs. repeat split; auto.
    + apply Z.eqb_neq in Hx.
      inversion Hex as [? ? Hh | ? ? Ht]; subst; [contradiction |].
      destruct xs as [| y ys]; [inversion Ht |].
      destruct (IH Ht) as [pre [l [post [Heq [Hlv [Hpre Hr]]]]]].
      exists (x :: pre), l, post.
      rewrite HRun, Ha in Hr. unfold FindLabel.select_version in Hr.
      split; [rewrite Heq; reflexivity |]. split; [exact Hlv |].
      split; [apply List.Forall_cons; [exact Hx | exact Hpre] | exact Hr].
  - unfold FindLabel.Run; reflexivity.
  - unfold FindLabel.Run; reflexivity.
Qed.

Lemma find_label_requested_witness :
  FindLabel.Run "macos" "abc" (Some [label_v 2]) = FindLabel.Halt ErrInvalidVersionFormat /\
  FindLabel.Run "macos" "9" (Some [label_v 1; label_v 3; label_v 2]) =
    FindLabel.Halt ErrLabelVersionNotFound.
Proof.
  assert (Hv1 : "abc" <> "") by discriminate.
  assert (Hv2 : "9" <> "") by discriminate.
  split.
  - apply (proj1 (find_label_requested "macos" "abc" [label_v 2] Hv1)); [discriminate | reflexivity].
  - apply (proj1 (proj2 (find_label_requested "macos" "9" [label_v 1; label_v 3; label_v 2] Hv2)) 9);
      [discriminate | reflexivity |].
    repeat (apply List.Forall_cons; [simpl; lia |]). apply List.Forall_nil.
Defined.

(** C6 counterexample: a non-numeric requested version with an empty
    answer from the label query halts with "label not found", not with
    the invalid-version error. *)
Lemma find_label_nonnumeric_empty :
  FindLabel.Run "macos" "abc" (Some []) = FindLabel.Halt (ErrLabelNotFound "macos") /\
  FindLabel.Run "macos" "abc" (Some []) <> FindLabel.Halt ErrInvalidVersionFormat.
Proof. split; [reflexivity | discriminate]. Qed.

(* ------------------------------------------------------------------ *)
(** ** The SSH setup step *)

Lemma parse_needs_two_fields (addr : string) :
  length (Go.split_colon addr) <> 2%nat -> ParseSSHAddress addr = None.
Proof.
  unfold ParseSSHAddress. intros H.
  destruct (Go.split_colon addr) as [| f1 [| f2 [| f3 fs]]]; try reflexivity.
  exfalso; apply H; reflexivity.
Qed.

Lemma ssh_loop_nils (comm : SetupSSH.CommConfig) (uid : string) (maxRetries : Z)
    (pre rest : list SetupSSH.access_resp) (r : SetupSSH.access_resp) :
  forall retryCount, Forall (eq (SetupSSH.AccOk None)) pre ->
  retryCount + Z.of_nat (length pre) < maxRetries ->
  fst (SetupSSH.loop comm uid maxRetries retryCount (pre ++ r :: rest)) =
    fst (SetupSSH.loop comm uid maxRetries (retryCount + Z.of_nat (length pre)) (r :: rest)).
Proof.
  induction pre as [| t pre IH]; intros rc Hpre Hlen.
  - cbn [app length]. rewrite Z.add_0_r. reflexivity.
  - inversion Hpre as [| ? ? Ht Hrest]; subst t.
    cbn [length] in Hlen. rewrite Nat2Z.inj_succ in Hlen.
    cbn [app SetupSSH.loop].
    destruct (maxRetries <? rc + 1) eqn:E; [apply Z.ltb_lt in E; lia |].
    cbn [fst prepend].
    rewrite IH by (exact Hrest || lia).
    cbn [length]. rewrite Nat2Z.inj_succ.
    replace (rc + 1 + Z.of_nat (length pre)) with (rc + Z.succ (Z.of_nat (length pre))) by lia.
    reflexivity.
Qed.

Lemma ssh_loop_requests_bounded (comm : SetupSSH.CommConfig) (uid : string) (maxRetries : Z)
    (ticks : list SetupSSH.access_resp) :
  forall retryCount, retryCount <= maxRetries ->
  Z.of_nat (length (snd (SetupSSH.loop comm uid maxRetries retryCount ticks))) <=
    maxRetries - retryCount.
Proof.
  induction ticks as [| t ticks IH]; intros rc Hrc; cbn [SetupSSH.loop].
  - cbn. lia.
  - destruct (maxRetries <? rc + 1) eqn:E; [cbn; lia |].
    apply Z.ltb_ge in E.
    destruct t as [| [a |]].
    + cbn. lia.
    + destruct (SetupSSH.resolve comm (SetupSSH.Address a)). cbn. lia.
    + cbn [prepend snd app length]. rewrite Nat2Z.inj_succ.
      specialize (IH (rc + 1) E). lia.
Qed.

(** C8.  An address that is not exactly two colon-separated fields does
    not parse; both generations of the step then take the communicator's
    host and port and continue: the gRPC one at once, the polling one
    whenever the access arrives within the retry budget. *)
Theorem unparsable_address_fallback (comm : SetupSSH.CommConfig) (resource_uid addr : string) :
  length (Go.split_colon addr) <> 2%nat ->
  ParseSSHAddress addr = None /\
  (forall a, SetupSSH.Address a = addr ->
     SetupSSH.run_v2 comm resource_uid (SetupSSH.AccOk (Some a)) =
       (SetupSSH.Continue (SetupSSH.SSHHost comm) (SetupSSH.SSHPort comm),
        [Api (CallGetResourceAccess resource_uid)])) /\
  (forall ConnectionRetries pre a rest,
     Forall (eq (SetupSSH.AccOk None)) pre ->
     Z.of_nat (length pre) < SetupSSH.prepared_retries ConnectionRetries ->
     SetupSSH.Address a = addr ->
     fst (SetupSSH.run_loop comm ConnectionRetries resource_uid
            (pre ++ SetupSSH.AccOk (Some a) :: rest)) =
       SetupSSH.Continue (SetupSSH.SSHHost comm) (SetupSSH.SSHPort comm)).
Proof.
  intros Hf.
  pose proof (parse_needs_two_fields addr Hf) as Hp.
  assert (Hr : SetupSSH.resolve comm addr = (SetupSSH.SSHHost comm, SetupSSH.SSHPort comm)).
  { unfold SetupSSH.resolve; rewrite Hp; reflexivity. }
  split; [exact Hp |]. split.
  - intros a Ha. unfold SetupSSH.run_v2, SetupSSH.GetAddress. rewrite Ha, Hr. reflexivity.
  - intros retries pre a rest Hpre Hlen Ha. unfold SetupSSH.run_loop.
    rewrite ssh_loop_nils by (exact Hpre || lia).
    cbn [SetupSSH.loop].
    destruct (SetupSSH.prepared_retries retries <? 0 + Z.of_nat (length pre) + 1) eqn:E;
      [apply Z.ltb_lt in E; lia |].
    rewrite Ha, Hr. reflexivity.
Qed.

Definition access_at (addr : string) : SetupSSH.Access :=
  {| SetupSSH.Address := addr; SetupSSH.Username := "admin";
     SetupSSH.Password := "secret"; SetupSSH.Key := "" |}.

Definition comm_defaults : SetupSSH.CommConfig :=
  {| SetupSSH.SSHHost := "10.0.0.5"; SetupSSH.SSHPort := 22 |}.

Lemma unparsable_address_fallback_witness :
  SetupSSH.run_v2 comm_defaults "res" (SetupSSH.AccOk (Some (access_at "not-an-address"))) =
    (SetupSSH.Continue "10.0.0.5" 22, [Api (CallGetResourceAccess "res")]) /\
  fst (SetupSSH.run_loop comm_defaults 60 "res"
         ([SetupSSH.AccOk None] ++ SetupSSH.AccOk (Some (access_at "not-an-address")) :: [])) =
    SetupSSH.Continue "10.0.0.5" 22.
Proof.
  assert (Hf : length (Go.split_colon "not-an-address") <> 2%nat) by (simpl; lia).
  destruct (unparsable_address_fallback comm_defaults "res" "not-an-address" Hf) as [_ [H1 H2]].
  split.
  - apply H1. reflexivity.
  - apply H2; [apply List.Forall_cons; [reflexivity | apply List.Forall_nil] | unfold SetupSSH.prepared_retries; simpl; lia | reflexivity].
Defined.

(** C3.  The gRPC step of the builder package (step_setup_ssh.go) makes
    exactly one access request and does not poll: an error halts, any
    other answer, nil included, continues with the resolved address
    (the communicator's host and port for a nil access).
    Polling lives only in the older variant (part_001): it ticks every
    10 seconds, halts on the deadline (the tick list running out) or
    when the retry counter would exceed its bound, continues after a nil
    access, halts at once on an error, and issues at most
    [prepared_retries] requests. *)
Theorem setup_ssh_polling (comm : SetupSSH.CommConfig) (uid : string) :
  (forall resp, length (snd (SetupSSH.run_v2 comm uid resp)) = 1%nat) /\
  SetupSSH.run_v2 comm uid SetupSSH.AccErr =
    (SetupSSH.Halt ErrSSHAccess, [Api (CallGetResourceAccess uid)]) /\
  SetupSSH.run_v2 comm uid (SetupSSH.AccOk None) =
    (let '(h, p) := SetupSSH.resolve comm EmptyString in SetupSSH.Continue h p,
     [Api (CallGetResourceAccess uid)]) /\
  (forall a, SetupSSH.run_v2 comm uid (SetupSSH.AccOk a) =
     (let '(h, p) := SetupSSH.resolve comm (SetupSSH.GetAddress a) in SetupSSH.Continue h p,
      [Api (CallGetResourceAccess uid)])) /\
  SetupSSH.tick_interval_seconds = 10 /\
  (forall maxRetries retryCount,
     SetupSSH.loop comm uid maxRetries retryCount [] = (SetupSSH.Halt ErrSSHAccessTimeout, [])) /\
  (forall maxRetries retryCount r rest, maxRetries < retryCount + 1 ->
     SetupSSH.loop comm uid maxRetries retryCount (r :: rest) = (SetupSSH.Halt ErrSSHRetryLimit, [])) /\
  (forall maxRetries retryCount rest, retryCount + 1 <= maxRetries ->
     SetupSSH.loop comm uid maxRetries retryCount (SetupSSH.AccOk None :: rest) =
       prepend [Api (CallGetResourceAccess uid)]
         (SetupSSH.loop comm uid maxRetries (retryCount + 1) rest)) /\
  (forall maxRetries retryCount rest, retryCount + 1 <= maxRetries ->
     SetupSSH.loop comm uid maxRetries retryCount (SetupSSH.AccErr :: rest) =
       (SetupSSH.Halt ErrSSHAccess, [Api (CallGetResourceAccess uid)])) /\
  (forall ConnectionRetries ticks,
     Z.of_nat (length (snd (SetupSSH.run_loop comm ConnectionRetries uid ticks))) <=
       SetupSSH.prepared_retries ConnectionRetries).
Proof.
  split; [intros [| a]; [reflexivity |]; unfold SetupSSH.run_v2;
          destruct (SetupSSH.resolve comm (SetupSSH.GetAddress a)); reflexivity |].
  split; [reflexivity |].
  split; [unfold SetupSSH.run_v2; cbn [SetupSSH.GetAddress];
          destruct (SetupSSH.resolve comm EmptyString); reflexivity |].
  split; [intros a; unfold SetupSSH.run_v2;
          destruct (SetupSSH.resolve comm (SetupSSH.GetAddress a)); reflexivity |].
  split; [reflexivity |].
  split; [reflexivity |].
  split.
  { intros m rc r rest H. cbn [SetupSSH.loop].
    destruct (m <? rc + 1) eqn:E; [reflexivity | apply Z.ltb_ge in E; lia]. }
  split.
  { intros m rc rest H. cbn [SetupSSH.loop].
    destruct (m <? rc + 1) eqn:E; [apply Z.ltb_lt in E; lia | reflexivity]. }
  split.
  { intros m rc rest H. cbn [SetupSSH.loop].
    destruct (m <? rc + 1) eqn:E; [apply Z.ltb_lt in E; lia | reflexivity]. }
  intros retries ticks. unfold SetupSSH.run_loop.
  assert (Hp : 0 <= SetupSSH.prepared_retries retries).
  { unfold SetupSSH.prepared_retries. destruct (retries <=? 0) eqn:E;
      [lia | apply Z.leb_gt in E; lia]. }
  pose proof (ssh_loop_requests_bounded comm uid (SetupSSH.prepared_retries retries) ticks 0 Hp).
  lia.
Qed.

Lemma setup_ssh_polling_witness :
  SetupSSH.loop comm_defaults "res" 1 1 [SetupSSH.AccOk None] =
    (SetupSSH.Halt ErrSSHRetryLimit, []) /\
  SetupSSH.loop comm_defaults "res" 2 0 [SetupSSH.AccOk None] =
    prepend [Api (CallGetResourceAccess "res")] (SetupSSH.loop comm_defaults "res" 2 1 []).
Proof.
  destruct (setup_ssh_polling comm_defaults "res") as (_ & _ & _ & _ & _ & _ & H1 & H2 & _).
  split; [apply H1; lia | apply H2; lia].
Defined.

(** The gRPC step does not poll: a nil access (not yet available) does
    not lead to a further request; the step continues after a single
    request, with the communicator's defaults. *)
Lemma setup_ssh_nil_access_no_poll :
  SetupSSH.run_v2 comm_defaults "res" (SetupSSH.AccOk None) =
    (SetupSSH.Continue "10.0.0.5" 22, [Api (CallGetResourceAccess "res")]).
Proof. reflexivity. Qed.

(* ------------------------------------------------------------------ *)
(** ** Application metadata *)

Lemma metadata_copy (m : gmap string value) :
  (list_to_map (map_to_list m) : gmap string value) = m.
Proof. apply list_to_map_to_list. Qed.

(** C10.  The metadata submitted with the application carries
    PACKER_BUILD = "true", PACKER_BUILDER = "aquarium" and
    PACKER_BUILD_TIME = the formatted build time, whatever the user map
    holds under those keys; every other key maps to exactly what the
    user map gives it; and this map is the one sent in the creation
    request. *)
Theorem create_application_metadata
    (user : gmap string value) (build_time label_uid : string) (created : option string) :
  let md := CreateApp.metadata (Some user) build_time in
  md !! "PACKER_BUILD" = Some (VStr "true") /\
  md !! "PACKER_BUILDER" = Some (VStr "aquarium") /\
  md !! "PACKER_BUILD_TIME" = Some (VStr build_time) /\
  (forall k, k <> "PACKER_BUILD" -> k <> "PACKER_BUILDER" -> k <> "PACKER_BUILD_TIME" ->
     md !! k = user !! k) /\
  snd (CreateApp.run label_uid (Some user) build_time created) =
    [Api (CallCreateApplication label_uid md)].
Proof.
  cbv zeta. unfold CreateApp.metadata. rewrite metadata_copy.
  split; [rewrite lookup_insert_ne by discriminate;
          rewrite lookup_insert_ne by discriminate;
          apply lookup_insert_eq |].
  split; [rewrite lookup_insert_ne by discriminate; apply lookup_insert_eq |].
  split; [apply lookup_insert_eq |].
  split.
  - intros k H1 H2 H3.
    rewrite lookup_insert_ne by congruence.
    rewrite lookup_insert_ne by congruence.
    rewrite lookup_insert_ne by congruence.
    reflexivity.
  - unfold CreateApp.run, CreateApp.metadata. rewrite metadata_copy.
    destruct created; reflexivity.
Qed.

Lemma create_application_metadata_witness :
  CreateApp.metadata (Some {[ "team" := VStr "ci"; "PACKER_BUILD" := VStr "no" ]})
      "2026-10-18T12:00:00Z" !! "team" = Some (VStr "ci") /\
  CreateApp.metadata (Some {[ "team" := VStr "ci"; "PACKER_BUILD" := VStr "no" ]})
      "2026-10-18T12:00:00Z" !! "PACKER_BUILD" = Some (VStr "true").
Proof.
  destruct (create_application_metadata {[ "team" := VStr "ci"; "PACKER_BUILD" := VStr "no" ]}
              "2026-10-18T12:00:00Z" "lbl" (Some "app")) as (H1 & _ & _ & H4 & _).
  split.
  - rewrite (H4 "team") by discriminate. reflexivity.
  - exact H1.
Defined.

(* ------------------------------------------------------------------ *)
(** ** Deallocation requests of a whole run *)

Lemma dealloc_app (a b : list event) :
  Builder.deallocations (a ++ b) = Builder.deallocations a ++ Builder.deallocations b.
Proof. unfold Builder.deallocations. apply omap_app. Qed.

Lemma dealloc_prepend {A : Type} (pre : list event) (r : A * list event) :
  Builder.deallocations (snd (prepend pre r)) =
    Builder.deallocations pre ++ Builder.deallocations (snd r).
Proof. apply dealloc_app. Qed.

Ltac no_dealloc IH :=
  cbn [snd fst negb];
  rewrite ?dealloc_prepend, ?dealloc_app, ?IH; reflexivity.

Lemma wait_loop_no_dealloc {S : Type} (eqb : S -> S -> bool) (name : S -> string)
    (br : S -> Wait.branch) (uid : string) (ticks : list (Wait.tick S)) :
  forall last, Builder.deallocations (snd (Wait.loop eqb name br uid last ticks)) = [].
Proof.
  induction ticks as [| t rest IH]; intros last; [reflexivity |].
  destruct t as [| | st d r]; [reflexivity | reflexivity |].
  cbn [Wait.loop].
  destruct (eqb st last), (br st), r; no_dealloc IH.
Qed.

Lemma image_loop_no_dealloc (task_uid : string) (ticks : list Image.task_resp) :
  Builder.deallocations (snd (Image.loop task_uid ticks)) = [].
Proof.
  induction ticks as [| [| [m |]] rest IH]; [reflexivity | reflexivity | |].
  - cbn [Image.loop]. destruct (negb (size m =? 0)%nat); no_dealloc IH.
  - cbn [Image.loop]. no_dealloc IH.
Qed.

Lemma wait_deallocated_no_dealloc (uid : string) (ticks : list Cleanup.state_resp) :
  Builder.deallocations (Cleanup.wait_deallocated uid ticks) = [].
Proof.
  induction ticks as [| [| st] rest IH]; [reflexivity | reflexivity |].
  cbn [Cleanup.wait_deallocated].
  destruct (String.eqb st "DEALLOCATED" || String.eqb st "RECALLED"); [reflexivity |].
  destruct (String.eqb st "ERROR"); [reflexivity |].
  change (Api (CallGetApplicationState uid) :: Cleanup.wait_deallocated uid rest)
    with ([Api (CallGetApplicationState uid)] ++ Cleanup.wait_deallocated uid rest).
  rewrite dealloc_app, IH. reflexivity.
Qed.

Lemma cleanup_deallocations (has_client : bool) (application : option string)
    (ok : bool) (ticks : list Cleanup.state_resp) :
  Builder.deallocations (Cleanup.cleanup has_client application ok ticks) =
    match has_client, application with
    | true, Some uid => [uid]
    | _, _ => []
    end.
Proof.
  destruct has_client; [| reflexivity]. destruct application as [uid |]; [| reflexivity].
  cbn [Cleanup.cleanup negb].
  change (Api (CallDeallocateApplication uid) ::
            (if ok then Cleanup.wait_deallocated uid ticks else []))
    with ([Api (CallDeallocateApplication uid)] ++
            (if ok then Cleanup.wait_deallocated uid ticks else [])).
  rewrite dealloc_app. destruct ok; [rewrite wait_deallocated_no_dealloc |]; reflexivity.
Qed.

Lemma step_run_no_dealloc (cfg : Builder.Config) (env : Builder.Env)
    (st : Builder.Step) (s : Builder.State) :
  Builder.deallocations (snd (Builder.step_run cfg env st s)) = [].
Proof.
  destruct st; cbn [Builder.step_run].
  - reflexivity.
  - destruct (Builder.connect_ok env); reflexivity.
  - destruct (negb (Builder.api_client s)); [reflexivity |].
    destruct (FindLabel.Run _ _ _); reflexivity.
  - destruct (negb (Builder.api_client s)); [reflexivity |].
    destruct (Builder.selected_label s) as [l |]; [| reflexivity].
    unfold CreateApp.run. destruct (Builder.create_app_resp env); reflexivity.
  - destruct (negb (Builder.api_client s)); [reflexivity |].
    destruct (Builder.application s) as [uid |]; [| reflexivity].
    pose proof (wait_loop_no_dealloc (fun a b => bool_decide (a = b))
                  Wait.status_name_v2 Wait.branch_v2 uid (Builder.wait_ticks env) Wait.UNSPECIFIED)
      as H.
    unfold Wait.run_v2.
    destruct (Wait.loop _ _ _ _ _ _) as [o ev] eqn:E.
    destruct o; exact H.
  - destruct (negb (Builder.api_client s)); [reflexivity |].
    destruct (Builder.application_resource s) as [r |]; [| reflexivity].
    unfold SetupSSH.run_v2. destruct (Builder.access_resp env) as [| a]; [reflexivity |].
    destruct (SetupSSH.resolve _ _); reflexivity.
  - destruct (Builder.ssh_connect_ok env); reflexivity.
  - destruct (Builder.provision_ok env); reflexivity.
  - destruct (negb (Builder.api_client s)); [reflexivity |].
    destruct (Builder.application s) as [uid |]; [| reflexivity].
    unfold Image.run_v2. destruct (Builder.task_create_resp env) as [tuid |]; [| reflexivity].
    pose proof (image_loop_no_dealloc tuid (Builder.task_ticks env)) as H.
    destruct (Image.loop tuid _) as [o ev] eqn:E.
    destruct o; cbn [prepend fst snd]; rewrite dealloc_app; cbn [snd] in H; rewrite H; reflexivity.
Qed.

(** A state with an application also holds the API client. *)
Definition client_inv (s : Builder.State) : Prop :=
  Builder.application s <> None -> Builder.api_client s = true.

Ltac check_client :=
  match goal with
  | Hs : Builder.application _ <> None -> _ |- context [negb (Builder.api_client ?s)] =>
      let Ec := fresh "Ec" in
      destruct (Builder.api_client s) eqn:Ec; cbn [negb];
      [clear Hs | cbn; rewrite Ec; exact Hs]
  end.

Lemma step_run_client_inv (cfg : Builder.Config) (env : Builder.Env)
    (st : Builder.Step) (s : Builder.State) :
  client_inv s -> client_inv (snd (fst (Builder.step_run cfg env st s))).
Proof.
  unfold client_inv. intros Hs.
  destruct st; cbn [Builder.step_run];
    [| | check_client | check_client | check_client | check_client | | | check_client].
  - exact Hs.
  - destruct (Builder.connect_ok env); cbn; [reflexivity | exact Hs].
  - destruct (FindLabel.Run _ _ _); cbn; intros _; exact Ec.
  - destruct (Builder.selected_label s) as [l |]; [| cbn; intros _; exact Ec].
    unfold CreateApp.run. destruct (Builder.create_app_resp env); cbn; intros _; exact Ec.
  - destruct (Builder.application s) as [uid |]; [| cbn; intros _; exact Ec].
    destruct (Wait.run_v2 uid _) as [[r | e] ev]; cbn; intros _; exact Ec.
  - destruct (Builder.application_resource s) as [r |]; [| cbn; intros _; exact Ec].
    destruct (SetupSSH.run_v2 _ _ _) as [[h p | e] ev]; cbn; intros _; exact Ec.
  - destruct (Builder.ssh_connect_ok env); cbn; exact Hs.
  - destruct (Builder.provision_ok env); cbn; exact Hs.
  - destruct (Builder.application s) as [uid |]; [| cbn; intros _; exact Ec].
    destruct (Image.run_v2 uid _ _) as [[r | e] ev]; cbn; intros _; exact Ec.
Qed.

Lemma run_forward_facts (cfg : Builder.Config) (env : Builder.Env) (sts : list Builder.Step) :
  forall s ran s' ev ran',
  Builder.run_forward cfg env sts s ran = (s', ev, ran') ->
  client_inv s ->
  client_inv s' /\ Builder.deallocations ev = [] /\
  exists X, ran' = X ++ ran /\ List.Forall (fun x => List.In x sts) X.
Proof.
  induction sts as [| st rest IH]; intros s ran s' ev ran' Hrun Hinv.
  - cbn in Hrun. injection Hrun as <- <- <-.
    split; [exact Hinv |]. split; [reflexivity |]. exists []. split; [reflexivity | apply List.Forall_nil].
  - cbn [Builder.run_forward] in Hrun.
    pose proof (step_run_client_inv cfg env st s Hinv) as Hinv'.
    pose proof (step_run_no_dealloc cfg env st s) as Hd.
    destruct (Builder.step_run cfg env st s) as [[act s1] ev1] eqn:Estep.
    cbn [fst snd] in Hinv', Hd.
    destruct act.
    + destruct (Builder.run_forward cfg env rest s1 (st :: ran)) as [[s2 ev2] ran2] eqn:Erest.
      injection Hrun as <- <- <-.
      destruct (IH s1 (st :: ran) s2 ev2 ran2 Erest Hinv') as (Hi & Hd2 & X & HX & HXin).
      split; [exact Hi |]. split; [rewrite dealloc_app, Hd, Hd2; reflexivity |].
      exists (X ++ [st]). split; [rewrite HX, <- app_assoc; reflexivity |].
      apply List.Forall_app. split.
      * eapply List.Forall_impl; [| exact HXin]. intros x Hx. right. exact Hx.
      * apply List.Forall_cons; [left; reflexivity | apply List.Forall_nil].
    + injection Hrun as <- <- <-.
      split; [exact Hinv' |]. split; [exact Hd |].
      exists [st]. split; [reflexivity |].
      apply List.Forall_cons; [left; reflexivity | apply List.Forall_nil].
Qed.

Lemma cleanups_of_later_steps (env : Builder.Env) (s : Builder.State) (X : list Builder.Step) :
  List.Forall (fun x => List.In x (tail Builder.steps)) X ->
  Builder.run_cleanups env X s = [].
Proof.
  induction X as [| x X IH]; intros H; [reflexivity |].
  inversion H as [| ? ? Hx HX]; subst.
  unfold Builder.run_cleanups. cbn [flat_map].
  fold (Builder.run_cleanups env X s). rewrite (IH HX).
  cbn in Hx. destruct x; [| reflexivity ..].
  exfalso. repeat (destruct Hx as [Hx | Hx]; [discriminate |]). exact Hx.
Qed.

Lemma run_decomposed (cfg : Builder.Config) (env : Builder.Env) :
  exists s ev X,
    Builder.run_forward cfg env Builder.steps Builder.initial_state [] =
      (s, ev, X ++ [Builder.StepCleanup]) /\
    client_inv s /\ Builder.deallocations ev = [] /\
    List.Forall (fun x => List.In x (tail Builder.steps)) X.
Proof.
  assert (Hc : Builder.run_forward cfg env Builder.steps Builder.initial_state [] =
    let '(s', ev', ran') := Builder.run_forward cfg env (tail Builder.steps)
                              Builder.initial_state [Builder.StepCleanup] in
    (s', [] ++ ev', ran')) by reflexivity.
  rewrite Hc.
  destruct (Builder.run_forward cfg env (tail Builder.steps) Builder.initial_state
              [Builder.StepCleanup]) as [[s ev] ran] eqn:E.
  destruct (run_forward_facts cfg env (tail Builder.steps) _ _ _ _ _ E)
    as (Hi & Hd & X & HX & HXin).
  { unfold client_inv. intros H. exfalso. apply H. reflexivity. }
  exists s, ev, X. split; [rewrite HX; reflexivity |].
  split; [exact Hi |]. split; [exact Hd | exact HXin].
Qed.

(** What a step that continues does to the state. *)
Definition cont_rel (st : Builder.Step) (s s1 : Builder.State) : Prop :=
  match st with
  | Builder.StepConnectAPI => s1 = Builder.set_api_client s
  | Builder.StepFindLabel => exists l, s1 = Builder.set_selected_label s l
  | Builder.StepCreateApplication => exists uid, s1 = Builder.set_application s uid
  | Builder.StepWaitForAllocation => exists r, s1 = Builder.set_resource s r
  | Builder.StepSetupSSH => exists h p, s1 = Builder.set_ssh s h p
  | _ => s1 = s
  end.

(** Every step continues as [cont_rel] says or halts with an error. *)
Lemma step_run_cases (cfg : Builder.Config) (env : Builder.Env)
    (st : Builder.Step) (s s1 : Builder.State) (act : Builder.StepAction) (ev : list event) :
  Builder.step_run cfg env st s = (act, s1, ev) ->
  (act = Builder.ActionHalt /\ Builder.err s1 <> None) \/
  (act = Builder.ActionContinue /\ cont_rel st s s1).
Proof.
  intros H.
  destruct st; cbn [Builder.step_run] in H;
    repeat match type of H with
           | context [match ?x with _ => _ end] => destruct x
           end;
    injection H as <- <- <-;
    first [ left; split; [reflexivity | cbn; discriminate]
          | right; split; [reflexivity | cbn; repeat eexists] ].
Qed.

(** What a step that continues leaves unchanged: the error. *)
Lemma cont_rel_err (st : Builder.Step) (s s1 : Builder.State) :
  cont_rel st s s1 -> Builder.err s1 = Builder.err s.
Proof.
  destruct st; cbn [cont_rel];
    first [ intros -> | intros [? ->] | intros [? [? ->]] ]; reflexivity.
Qed.

(** Once set, the error stays set. *)
Lemma step_run_err (cfg : Builder.Config) (env : Builder.Env)
    (st : Builder.Step) (s s1 : Builder.State) (act : Builder.StepAction) (ev : list event) :
  Builder.step_run cfg env st s = (act, s1, ev) ->
  Builder.err s <> None -> Builder.err s1 <> None.
Proof.
  intros H Hs. destruct (step_run_cases cfg env st s s1 act ev H) as [[_ Hh] | [_ Hc]];
    [exact Hh | rewrite (cont_rel_err _ _ _ Hc); exact Hs].
Qed.

(** The attempts of an [askStep]: the error, once set, stays set, and
    it is set when the step ends in a halt. *)
Lemma ask_run_err (cfg : Builder.Config) (st : Builder.Step) :
  forall env s s1 act ev env' aborted,
  Builder.ask_run cfg env st s = (act, s1, ev, env', aborted) ->
  (Builder.err s <> None -> Builder.err s1 <> None) /\
  (act = Builder.ActionHalt -> Builder.err s1 <> None).
Proof.
  fix IH 1. intros env s s1 act ev env' aborted H.
  destruct env as [c l ca wt ar sc po tc tt d ct bt r].
  cbn [Builder.ask_run] in H.
  destruct (Builder.step_run cfg _ st s) as [[act0 s2] ev2] eqn:Est.
  destruct (step_run_cases _ _ st s s2 act0 ev2 Est) as [[-> Hh] | [-> Hc]].
  - cbn [Builder.ask_reply] in H. destruct r as [| | next].
    + injection H as <- <- _ _ _. split; intros _; exact Hh.
    + injection H as <- <- _ _ _. split; intros _; exact Hh.
    + destruct (Builder.ask_run cfg next st s2) as [[[[act3 s3] ev3] env3] a3] eqn:Ea.
      injection H as <- <- _ _ _.
      destruct (IH next s2 s3 act3 ev3 env3 a3 Ea) as [Hs3 _].
      split; intros _; exact (Hs3 Hh).
  - injection H as <- <- _ _ _. split; [| discriminate].
    rewrite (cont_rel_err _ _ _ Hc). intros Hs; exact Hs.
Qed.

(** A wrapped step that leaves no error continued at its first
    attempt, exactly as the step itself. *)
Lemma wrapped_run_success (cfg : Builder.Config) (asks : bool) (env : Builder.Env)
    (st : Builder.Step) (s s1 : Builder.State) (act : Builder.StepAction) (ev : list event)
    (env' : Builder.Env) (aborted : bool) :
  Builder.wrapped_run cfg asks env st s = (act, s1, ev, env', aborted) ->
  Builder.err s1 = None ->
  Builder.step_run cfg env st s = (Builder.ActionContinue, s1, ev) /\
  act = Builder.ActionContinue /\ env' = env /\ aborted = false.
Proof.
  intros H Hs1. unfold Builder.wrapped_run in H. destruct asks.
  - destruct env as [c l ca wt ar sc po tc tt d ct bt r].
    cbn [Builder.ask_run] in H.
    destruct (Builder.step_run cfg _ st s) as [[act0 s2] ev2] eqn:Est.
    destruct (step_run_cases _ _ st s s2 act0 ev2 Est) as [[-> Hh] | [-> Hc]].
    + exfalso. cbn [Builder.ask_reply] in H. destruct r as [| | next].
      * injection H as _ <- _ _ _. contradiction.
      * injection H as _ <- _ _ _. contradiction.
      * destruct (Builder.ask_run cfg next st s2) as [[[[act3 s3] ev3] env3] a3] eqn:Ea.
        injection H as _ <- _ _ _.
        exact (proj1 (ask_run_err cfg st next s2 s3 act3 ev3 env3 a3 Ea) Hh Hs1).
    + injection H as <- <- <- <- <-. auto.
  - destruct (Builder.step_run cfg env st s) as [[act0 s2] ev2] eqn:Est.
    injection H as <- <- <- <- <-.
    destruct (step_run_cases _ _ st s s2 act0 ev2 Est) as [[_ Hh] | [-> _]];
      [contradiction | auto].
Qed.

Lemma wrapped_run_err (cfg : Builder.Config) (asks : bool) (env : Builder.Env)
    (st : Builder.Step) (s s1 : Builder.State) (act : Builder.StepAction) (ev : list event)
    (env' : Builder.Env) (aborted : bool) :
  Builder.wrapped_run cfg asks env st s = (act, s1, ev, env', aborted) ->
  (Builder.err s <> None -> Builder.err s1 <> None) /\
  (act = Builder.ActionHalt -> Builder.err s1 <> None).
Proof.
  intros H. unfold Builder.wrapped_run in H. destruct asks.
  - exact (ask_run_err cfg st env s s1 act ev env' aborted H).
  - destruct (Builder.step_run cfg env st s) as [[act0 s2] ev2] eqn:Est.
    injection H as <- <- <- _ _.
    destruct (step_run_cases _ _ st s s2 act0 ev2 Est) as [[_ Hh] | [-> Hc]].
    + split; intros _; exact Hh.
    + split; [rewrite (cont_rel_err _ _ _ Hc); intros Hs; exact Hs | discriminate].
Qed.

Lemma run_forward_wrapped_err (cfg : Builder.Config) (asks : bool) (sts : list Builder.Step) :
  forall env s ran s' ev ran' env' halted aborted,
  Builder.run_forward_wrapped cfg asks env sts s ran = (s', ev, ran', env', halted, aborted) ->
  (Builder.err s <> None -> Builder.err s' <> None) /\
  (halted = true -> Builder.err s' <> None).
Proof.
  induction sts as [| st rest IH]; intros env s ran s' ev ran' env' halted aborted H.
  - cbn in H. injection H as <- _ _ _ <- _. split; [auto | discriminate].
  - cbn [Builder.run_forward_wrapped] in H.
    destruct (Builder.wrapped_run cfg asks env st s) as [[[[act s1] ev1] env1] a1] eqn:Ew.
    destruct (wrapped_run_err _ _ _ _ _ _ _ _ _ _ Ew) as [Hs1 Hh1].
    destruct act.
    + destruct (Builder.run_forward_wrapped cfg asks env1 rest s1 (st :: ran))
        as [[[[[s2 ev2] ran2] env2] h2] a2] eqn:Erest.
      injection H as <- _ _ _ <- _.
      destruct (IH _ _ _ _ _ _ _ _ _ Erest) as [Hs2 Hh2].
      split; [intros Hs; exact (Hs2 (Hs1 Hs)) | exact Hh2].
    + injection H as <- _ _ _ <- _.
      split; [exact Hs1 | intros _; exact (Hh1 eq_refl)].
Qed.

(** A forward pass over wrapped steps that leaves no error is the
    forward pass over the steps themselves: no step halted, no prompt
    was answered, the script did not change. *)
Lemma run_forward_wrapped_success (cfg : Builder.Config) (asks : bool) (sts : list Builder.Step) :
  forall env s ran s' ev ran' env' halted aborted,
  Builder.run_forward_wrapped cfg asks env sts s ran = (s', ev, ran', env', halted, aborted) ->
  Builder.err s' = None ->
  Builder.run_forward cfg env sts s ran = (s', ev, ran') /\
  env' = env /\ halted = false /\ aborted = false.
Proof.
  induction sts as [| st rest IH]; intros env s ran s' ev ran' env' halted aborted H Hs'.
  - cbn in H. injection H as <- <- <- <- <- <-. auto.
  - cbn [Builder.run_forward_wrapped] in H.
    destruct (Builder.wrapped_run cfg asks env st s) as [[[[act s1] ev1] env1] a1] eqn:Ew.
    destruct (wrapped_run_err _ _ _ _ _ _ _ _ _ _ Ew) as [_ Hh1].
    destruct act.
    + destruct (Builder.run_forward_wrapped cfg asks env1 rest s1 (st :: ran))
        as [[[[[s2 ev2] ran2] env2] h2] a2] eqn:Erest.
      injection H as <- <- <- <- <- <-.
      assert (Hs1 : Builder.err s1 = None).
      { destruct (Builder.err s1) eqn:E1; [| reflexivity].
        exfalso. refine (proj1 (run_forward_wrapped_err _ _ _ _ _ _ _ _ _ _ _ _ Erest) _ Hs').
        rewrite E1. discriminate. }
      destruct (wrapped_run_success _ _ _ _ _ _ _ _ _ _ Ew Hs1) as (Est & _ & -> & _).
      destruct (IH _ _ _ _ _ _ _ _ _ Erest Hs') as (Er & -> & -> & ->).
      cbn [Builder.run_forward]. rewrite Est, Er. auto.
    + injection H as <- _ _ _ _ _. exfalso. exact (Hh1 eq_refl Hs').
Qed.

(** A successful [Builder.Run], whatever the -on-error mode, is the
    forward pass of the unwrapped steps with no error, followed by
    every deferred cleanup. *)
Lemma run_artifact (cfg : Builder.Config) (env : Builder.Env)
    (gd : gmap string string) (s : Builder.State) (evs : list event) :
  Builder.Run cfg env = (Builder.Artifact gd, s, evs) ->
  exists ev ran,
    Builder.run_forward cfg env Builder.steps Builder.initial_state [] = (s, ev, ran) /\
    Builder.err s = None /\ gd = Builder.generated_data s /\
    evs = ev ++ Builder.run_cleanups env ran s.
Proof.
  unfold Builder.Run, Builder.result_of.
  destruct (Builder.NewRunner (Builder.PackerOnError cfg)).
  - destruct (Builder.run_forward cfg env Builder.steps Builder.initial_state [])
      as [[s0 ev] ran] eqn:E.
    destruct (Builder.err s0) eqn:Eerr; [discriminate |].
    intros H. injection H as <- <- <-. exists ev, ran. auto.
  - destruct (Builder.run_forward_wrapped cfg false env Builder.steps Builder.initial_state [])
      as [[[[[s0 ev] ran] env0] h] a] eqn:E.
    destruct (Builder.err s0) eqn:Eerr; [discriminate |].
    destruct (run_forward_wrapped_success _ _ _ _ _ _ _ _ _ _ _ _ E Eerr) as (Er & -> & -> & ->).
    intros H. injection H as <- <- <-. exists ev, ran. auto.
  - destruct (Builder.run_forward_wrapped cfg true env Builder.steps Builder.initial_state [])
      as [[[[[s0 ev] ran] env0] h] a] eqn:E.
    destruct (Builder.err s0) eqn:Eerr; [discriminate |].
    destruct (run_forward_wrapped_success _ _ _ _ _ _ _ _ _ _ _ _ E Eerr) as (Er & -> & -> & ->).
    intros H. injection H as <- <- <-. exists ev, ran. auto.
Qed.

(** The forward pass of the steps wrapped in [abortStep] sends no
    deallocation request. *)
Lemma run_forward_wrapped_no_dealloc (cfg : Builder.Config) (sts : list Builder.Step) :
  forall env s ran s' ev ran' env' halted aborted,
  Builder.run_forward_wrapped cfg false env sts s ran = (s', ev, ran', env', halted, aborted) ->
  Builder.deallocations ev = [].
Proof.
  induction sts as [| st rest IH]; intros env s ran s' ev ran' env' halted aborted H.
  - cbn in H. injection H as _ <- _ _ _ _. reflexivity.
  - cbn [Builder.run_forward_wrapped Builder.wrapped_run] in H.
    pose proof (step_run_no_dealloc cfg env st s) as Hd.
    destruct (Builder.step_run cfg env st s) as [[act s1] ev1] eqn:Est.
    cbn [snd] in Hd. destruct act.
    + destruct (Builder.run_forward_wrapped cfg false env rest s1 (st :: ran))
        as [[[[[s2 ev2] ran2] env2] h2] a2] eqn:Erest.
      injection H as _ <- _ _ _ _.
      rewrite dealloc_app, Hd, (IH _ _ _ _ _ _ _ _ _ Erest). reflexivity.
    + injection H as _ <- _ _ _ _. exact Hd.
Qed.

(** With no step halting, the forward pass of the steps wrapped in
    [abortStep] leaves the error unset. *)
Lemma run_forward_abort_not_halted (cfg : Builder.Config) (sts : list Builder.Step) :
  forall env s ran s' ev ran' env' aborted,
  Builder.run_forward_wrapped cfg false env sts s ran = (s', ev, ran', env', false, aborted) ->
  Builder.err s = None -> Builder.err s' = None.
Proof.
  induction sts as [| st rest IH]; intros env s ran s' ev ran' env' aborted H Hs.
  - cbn in H. injection H as <- _ _ _ _. exact Hs.
  - cbn [Builder.run_forward_wrapped Builder.wrapped_run] in H.
    destruct (Builder.step_run cfg env st s) as [[act s1] ev1] eqn:Est.
    destruct act; [| discriminate].
    destruct (Builder.run_forward_wrapped cfg false env rest s1 (st :: ran))
      as [[[[[s2 ev2] ran2] env2] h2] a2] eqn:Erest.
    injection H as <- _ _ _ -> _.
    apply (IH _ _ _ _ _ _ _ _ Erest).
    destruct (step_run_cases _ _ _ _ _ _ _ Est) as [[Ha _] | [_ Hc]]; [discriminate |].
    rewrite (cont_rel_err _ _ _ Hc). exact Hs.
Qed.

(** C2 (amended).  With the default -on-error mode (cleanup, or any
    value other than abort, ask and run-cleanup-provisioner), whatever
    the service answers and wherever the run halts, the events of
    [Builder.Run] hold exactly one deallocation request, for the
    application uid in the final state, when an application was
    created; none when no application is in the state; and the result
    is decided by the error of the forward pass alone.  With abort or
    run-cleanup-provisioner, a run that fails skips every cleanup and
    sends no deallocation request, even when an application was
    created.  The cleanup issues no request without an API client or
    without an application. *)
Theorem cleanup_deallocates_once (cfg : Builder.Config) (env : Builder.Env) :
  (Builder.NewRunner (Builder.PackerOnError cfg) = Builder.NoWrap ->
   let '(res, s, evs) := Builder.Run cfg env in
   (forall uid, Builder.application s = Some uid -> Builder.deallocations evs = [uid]) /\
   (Builder.application s = None -> Builder.deallocations evs = []) /\
   res = match Builder.err s with
         | Some e => Builder.Failed e
         | None => Builder.Artifact (Builder.generated_data s)
         end) /\
  (Builder.NewRunner (Builder.PackerOnError cfg) = Builder.WrapAbort ->
   let '(res, s, evs) := Builder.Run cfg env in
   Builder.err s <> None -> Builder.deallocations evs = []) /\
  (forall application ok ticks, Cleanup.cleanup false application ok ticks = []) /\
  (forall has_client ok ticks, Cleanup.cleanup has_client None ok ticks = []).
Proof.
  split; [| split; [| split; [reflexivity | intros [|] ok ticks; reflexivity]]].
  - intros Hw.
    destruct (run_decomposed cfg env) as (s & ev & X & Hrun & Hi & Hd & HX).
    unfold Builder.Run. rewrite Hw, Hrun.
    unfold Builder.run_cleanups. rewrite flat_map_app.
    fold (Builder.run_cleanups env X s). rewrite (cleanups_of_later_steps env s X HX).
    cbn [flat_map Builder.step_cleanup app]. rewrite app_nil_r.
    split; [| split; [| reflexivity]].
    + intros uid Ha. rewrite dealloc_app, Hd, cleanup_deallocations, Ha.
      rewrite (Hi ltac:(rewrite Ha; discriminate)). reflexivity.
    + intros Ha. rewrite dealloc_app, Hd, cleanup_deallocations, Ha.
      destruct (Builder.api_client s); reflexivity.
  - intros Hw. unfold Builder.Run. rewrite Hw.
    destruct (Builder.run_forward_wrapped cfg false env Builder.steps Builder.initial_state [])
      as [[[[[s ev] ran] env'] halted] aborted] eqn:E.
    intros Herr. destruct halted.
    + rewrite app_nil_r. exact (run_forward_wrapped_no_dealloc _ _ _ _ _ _ _ _ _ _ _ E).
    + exfalso. apply Herr.
      exact (run_forward_abort_not_halted _ _ _ _ _ _ _ _ _ _ E eq_refl).
Qed.

(** A run that creates ["app-1"] and then times out waiting for it. *)
Definition cfg_ex : Builder.Config := {|
  Builder.LabelName := "macos"; Builder.LabelVersion := "";
  Builder.ApplicationMetadata := None; Builder.Communicator := comm_defaults;
  Builder.PackerOnError := "" |}.

Definition env_timeout : Builder.Env := {|
  Builder.connect_ok := true; Builder.labels_resp := Some [label_v 3];
  Builder.create_app_resp := Some "app-1"; Builder.wait_ticks := [Wait.Deadline];
  Builder.access_resp := SetupSSH.AccErr; Builder.ssh_connect_ok := true;
  Builder.provision_ok := true; Builder.task_create_resp := None; Builder.task_ticks := [];
  Builder.dealloc_ok := true; Builder.cleanup_ticks := [Cleanup.StOk "DEALLOCATED"];
  Builder.build_time := "2026-10-18T12:00:00Z"; Builder.ask_reply := Builder.AskCleanup |}.

Lemma cleanup_deallocates_once_witness :
  Builder.NewRunner (Builder.PackerOnError cfg_ex) = Builder.NoWrap /\
  Builder.application (snd (fst (Builder.Run cfg_ex env_timeout))) = Some "app-1" /\
  Builder.deallocations (snd (Builder.Run cfg_ex env_timeout)) = ["app-1"].
Proof.
  assert (Hw : Builder.NewRunner (Builder.PackerOnError cfg_ex) = Builder.NoWrap) by reflexivity.
  assert (Ha : Builder.application (snd (fst (Builder.Run cfg_ex env_timeout))) = Some "app-1")
    by (vm_compute; reflexivity).
  split; [exact Hw |]. split; [exact Ha |].
  pose proof (proj1 (cleanup_deallocates_once cfg_ex env_timeout) Hw) as H.
  revert H Ha. destruct (Builder.Run cfg_ex env_timeout) as [[res s] evs].
  cbn [fst snd]. intros [H _] Ha. apply H. exact Ha.
Defined.

(** The same run with -on-error=abort. *)
Definition cfg_abort : Builder.Config := {|
  Builder.LabelName := "macos"; Builder.LabelVersion := "";
  Builder.ApplicationMetadata := None; Builder.Communicator := comm_defaults;
  Builder.PackerOnError := "abort" |}.

(** C2 counterexample: with -on-error=abort, the run creates "app-1",
    times out waiting for it, and ends with no deallocation request:
    the halt makes every [abortStep] skip its cleanup. *)
Lemma cleanup_abort_no_deallocation :
  Builder.application (snd (fst (Builder.Run cfg_abort env_timeout))) = Some "app-1" /\
  Builder.deallocations (snd (Builder.Run cfg_abort env_timeout)) = [] /\
  fst (fst (Builder.Run cfg_abort env_timeout)) = Builder.Failed ErrAllocationTimeout.
Proof. vm_compute. split; [reflexivity | split; reflexivity]. Qed.

(* ------------------------------------------------------------------ *)
(** ** The generated data of a successful run *)

(** The steps of a list all continue, each as [cont_rel] says. *)
Fixpoint all_cont (sts : list Builder.Step) (s s' : Builder.State) : Prop :=
  match sts with
  | [] => s' = s
  | st :: rest => exists s1, cont_rel st s s1 /\ all_cont rest s1 s'
  end.

Lemma run_forward_success (cfg : Builder.Config) (env : Builder.Env) (sts : list Builder.Step) :
  forall s ran s' ev ran',
  Builder.run_forward cfg env sts s ran = (s', ev, ran') ->
  Builder.err s' = None -> all_cont sts s s'.
Proof.
  induction sts as [| st rest IH]; intros s ran s' ev ran' Hrun Herr.
  - cbn in Hrun. injection Hrun as <- _ _. reflexivity.
  - cbn [Builder.run_forward] in Hrun.
    destruct (Builder.step_run cfg env st s) as [[act s1] ev1] eqn:Estep.
    destruct (step_run_cases cfg env st s s1 act ev1 Estep) as [[-> Hh] | [-> Hc]].
    + injection Hrun as <- _ _. contradiction.
    + destruct (Builder.run_forward cfg env rest s1 (st :: ran)) as [[s2 ev2] ran2] eqn:Erest.
      injection Hrun as <- _ _.
      exists s1. split; [exact Hc | exact (IH s1 (st :: ran) s2 ev2 ran2 Erest Herr)].
Qed.




(** A successful run whose access address is [addr]. *)
Definition env_success (addr : string) : Builder.Env := {|
  Builder.connect_ok := true; Builder.labels_resp := Some [label_v 3];
  Builder.create_app_resp := Some "app-1";
  Builder.wait_ticks :=
    [Wait.Tick Wait.ALLOCATED "ready"
       (Wait.ResSome {| Wait.ResourceUID := "res-1"; Wait.IpAddr := "10.0.0.9" |})];
  Builder.access_resp := SetupSSH.AccOk (Some (access_at addr));
  Builder.ssh_connect_ok := true; Builder.provision_ok := true;
  Builder.task_create_resp := Some "task-1";
  Builder.task_ticks := [Image.TaskOk (Some {[ "status" := VStr "completed" ]})];
  Builder.dealloc_ok := true; Builder.cleanup_ticks := [Cleanup.StOk "DEALLOCATED"];
  Builder.build_time := "2026-10-18T12:00:00Z"; Builder.ask_reply := Builder.AskCleanup |}.



(* ================================================================== *)
(** * Properties of the rest of the code *)

(** ** Go helpers: [strconv.Itoa], [strconv.Atoi], [strings.Split] *)

Lemma digit_char (m : N) :
  (m < 10)%N ->
  Go.digit_of (ascii_of_N (48 + m)) = Some (Z.of_N m) /\
  Ascii.eqb (ascii_of_N (48 + m)) ":"%char = false /\
  Ascii.eqb (ascii_of_N (48 + m)) "+"%char = false /\
  Ascii.eqb (ascii_of_N (48 + m)) "-"%char = false.
Proof.
  intros H.
  assert (m = 0 \/ m = 1 \/ m = 2 \/ m = 3 \/ m = 4 \/ m = 5 \/ m = 6 \/ m = 7 \/ m = 8 \/ m = 9)%N
    as Hm by lia.
  repeat (destruct Hm as [-> | Hm]; [repeat split; reflexivity |]).
  subst m. repeat split; reflexivity.
Qed.

Lemma digits_value_acc (s : string) :
  forall a, Go.digits_value s a =
    option_map (fun v => a * 10 ^ Z.of_nat (String.length s) + v) (Go.digits_value s 0).
Proof.
  induction s as [| c t IH]; intros a.
  - cbn. f_equal. lia.
  - cbn [Go.digits_value String.length]. destruct (Go.digit_of c) as [d |]; [| reflexivity].
    rewrite (IH (a * 10 + d)), (IH (0 * 10 + d)).
    destruct (Go.digits_value t 0) as [v |]; [| reflexivity]. cbn. f_equal.
    rewrite Nat2Z.inj_succ, Z.pow_succ_r by lia. nia.
Qed.

Lemma itoa_digits_value (fuel : nat) :
  forall n acc, (n < 10 ^ N.of_nat fuel)%N ->
  Go.digits_value (Go.itoa_digits fuel n acc) 0 =
    option_map (fun v => Z.of_N n * 10 ^ Z.of_nat (String.length acc) + v)
      (Go.digits_value acc 0).
Proof.
  induction fuel as [| f IH]; intros n acc Hn.
  - cbn in Hn. assert (n = 0%N) as -> by lia. cbn.
    destruct (Go.digits_value acc 0); reflexivity.
  - cbn [Go.itoa_digits].
    assert (Hmod : (n mod 10 < 10)%N) by (apply N.mod_lt; lia).
    destruct (digit_char _ Hmod) as (Hd & _).
    assert (Hacc : Go.digits_value (String (ascii_of_N (48 + n mod 10)) acc) 0 =
              option_map (fun v => Z.of_N (n mod 10) * 10 ^ Z.of_nat (String.length acc) + v)
                (Go.digits_value acc 0)).
    { cbn [Go.digits_value]. rewrite Hd, digits_value_acc. reflexivity. }
    destruct (n <? 10)%N eqn:Hlt.
    + apply N.ltb_lt in Hlt. rewrite Hacc. rewrite N.mod_small by exact Hlt. reflexivity.
    + apply N.ltb_ge in Hlt.
      rewrite IH.
      * rewrite Hacc. destruct (Go.digits_value acc 0) as [v |]; [| reflexivity].
        cbn [option_map String.length]. f_equal.
        rewrite Nat2Z.inj_succ, Z.pow_succ_r by lia.
        pose proof (N.div_mod n 10 ltac:(lia)) as Hdm.
        assert (Z.of_N n = 10 * Z.of_N (n / 10) + Z.of_N (n mod 10)) by lia.
        nia.
      * rewrite Nat2N.inj_succ, N.pow_succ_r' in Hn.
        apply N.Div0.div_lt_upper_bound; lia.
Qed.

Lemma pos_lt_pow10 (p : positive) : (Npos p < 10 ^ N.of_nat (Pos.size_nat p))%N.
Proof.
  induction p as [p IH | p IH |]; cbn [Pos.size_nat].
  - rewrite Nat2N.inj_succ, N.pow_succ_r'. lia.
  - rewrite Nat2N.inj_succ, N.pow_succ_r'. lia.
  - cbn. lia.
Qed.

(** Strings of decimal digits: non-empty, every character a digit. *)
Fixpoint all_digits (s : string) : bool :=
  match s with
  | EmptyString => true
  | String c t => match Go.digit_of c with Some _ => all_digits t | None => false end
  end.

Fixpoint has_colon (s : string) : bool :=
  match s with
  | EmptyString => false
  | String c t => Ascii.eqb c ":"%char || has_colon t
  end.

Lemma digit_not_colon (c : ascii) : Go.digit_of c <> None -> Ascii.eqb c ":"%char = false.
Proof.
  intros H. destruct (Ascii.eqb c ":"%char) eqn:E; [| reflexivity].
  apply Ascii.eqb_eq in E. subst c. exfalso. apply H. reflexivity.
Qed.

Lemma all_digits_no_colon (s : string) : all_digits s = true -> has_colon s = false.
Proof.
  induction s as [| c t IH]; [reflexivity |]. cbn.
  destruct (Go.digit_of c) eqn:E; [| discriminate]. intros H.
  rewrite digit_not_colon by congruence. apply IH. exact H.
Qed.

Lemma itoa_digits_shape (fuel : nat) :
  forall n acc, all_digits acc = true -> (fuel <> O \/ acc <> EmptyString) ->
  all_digits (Go.itoa_digits fuel n acc) = true /\ Go.itoa_digits fuel n acc <> EmptyString.
Proof.
  induction fuel as [| f IH]; intros n acc Hd Hne; cbn [Go.itoa_digits].
  - destruct Hne as [Hne | Hne]; [contradiction | split; assumption].
  - assert (Hmod : (n mod 10 < 10)%N) by (apply N.mod_lt; lia).
    destruct (digit_char _ Hmod) as (Hc & _).
    assert (Hd' : all_digits (String (ascii_of_N (48 + n mod 10)) acc) = true).
    { cbn. rewrite Hc. exact Hd. }
    destruct (n <? 10)%N; [split; [exact Hd' | discriminate] |].
    apply IH; [exact Hd' | right; discriminate].
Qed.

Lemma Atoi_digits (s : string) (v : Z) :
  all_digits s = true -> s <> EmptyString -> Go.digits_value s 0 = Some v ->
  forall neg : bool, Go.Atoi (if neg then String "-"%char s else s) =
    (let n := if neg then - v else v in
     if (Go.int_min <=? n) && (n <=? Go.int_max) then Some n else None).
Proof.
  intros Hd Hne Hv [|].
  - destruct s as [| c t]; [contradiction |].
    unfold Go.Atoi. cbn -[Go.digits_value Go.int_min Go.int_max].
    rewrite Hv. reflexivity.
  - destruct s as [| c t]; [contradiction |].
    cbn in Hd. destruct (Go.digit_of c) as [dc |] eqn:Ec; [| discriminate].
    assert (Hp : Ascii.eqb c "+"%char = false).
    { destruct (Ascii.eqb c "+"%char) eqn:E; [| reflexivity].
      apply Ascii.eqb_eq in E. subst c. discriminate. }
    assert (Hm : Ascii.eqb c "-"%char = false).
    { destruct (Ascii.eqb c "-"%char) eqn:E; [| reflexivity].
      apply Ascii.eqb_eq in E. subst c. discriminate. }
    unfold Go.Atoi. rewrite Hp, Hm. rewrite Hv. reflexivity.
Qed.

Lemma size_nat_ne (p : positive) : Pos.size_nat p <> O.
Proof. destruct p; discriminate. Qed.

(** [strconv.Atoi] reads back what [strconv.Itoa] writes, for every
    [int]. *)
Lemma Atoi_Itoa (z : Z) : Go.int_min <= z <= Go.int_max -> Go.Atoi (Go.Itoa z) = Some z.
Proof.
  intros Hz.
  destruct z as [| p | p]; [reflexivity | |].
  - destruct (itoa_digits_shape (Pos.size_nat p) (Npos p) EmptyString eq_refl
                (or_introl (size_nat_ne p))) as [Hd Hne].
    pose proof (itoa_digits_value (Pos.size_nat p) (Npos p) EmptyString (pos_lt_pow10 p)) as Hv.
    cbn in Hv. rewrite Z.mul_1_r, Z.add_0_r in Hv.
    cbn [Go.Itoa].
    rewrite (Atoi_digits _ _ Hd Hne Hv false). cbn.
    destruct (Go.int_min <=? Z.pos p) eqn:E1; [| apply Z.leb_gt in E1; lia].
    destruct (Z.pos p <=? Go.int_max) eqn:E2; [reflexivity | apply Z.leb_gt in E2; lia].
  - destruct (itoa_digits_shape (Pos.size_nat p) (Npos p) EmptyString eq_refl
                (or_introl (size_nat_ne p))) as [Hd Hne].
    pose proof (itoa_digits_value (Pos.size_nat p) (Npos p) EmptyString (pos_lt_pow10 p)) as Hv.
    cbn in Hv. rewrite Z.mul_1_r, Z.add_0_r in Hv.
    cbn [Go.Itoa].
    rewrite (Atoi_digits _ _ Hd Hne Hv true). cbv zeta.
    change (- Z.pos p) with (Z.neg p).
    destruct (Go.int_min <=? Z.neg p) eqn:E1; [| apply Z.leb_gt in E1; lia].
    destruct (Z.neg p <=? Go.int_max) eqn:E2; [reflexivity | apply Z.leb_gt in E2; lia].
Qed.

Lemma Itoa_no_colon (z : Z) : has_colon (Go.Itoa z) = false.
Proof.
  destruct z as [| p | p]; [reflexivity | |];
  destruct (itoa_digits_shape (Pos.size_nat p) (Npos p) EmptyString eq_refl
              (or_introl (size_nat_ne p))) as [Hd _];
  cbn [Go.Itoa]; [apply all_digits_no_colon; exact Hd |].
  cbn. apply all_digits_no_colon; exact Hd.
Qed.

Lemma split_colon_nonempty (s : string) : Go.split_colon s <> [].
Proof.
  induction s as [| c t IH]; [discriminate |]. cbn.
  destruct (Go.split_colon t) as [| f fs]; [contradiction |].
  destruct (Ascii.eqb c ":"%char); discriminate.
Qed.

Lemma split_colon_no_colon (s : string) : has_colon s = false -> Go.split_colon s = [s].
Proof.
  induction s as [| c t IH]; [reflexivity |]. cbn.
  destruct (Ascii.eqb c ":"%char); [discriminate |]. cbn. intros H.
  rewrite (IH H). reflexivity.
Qed.

Lemma split_colon_app (h t : string) :
  has_colon h = false -> Go.split_colon (h ++ String ":"%char t) = h :: Go.split_colon t.
Proof.
  induction h as [| c h IH]; intros H.
  - change (Go.split_colon (String ":"%char t) = EmptyString :: Go.split_colon t).
    cbn [Go.split_colon].
    destruct (Go.split_colon t) as [| f fs] eqn:E; [| reflexivity].
    exfalso. exact (split_colon_nonempty t E).
  - cbn in H. apply orb_false_iff in H as [Hc Hh].
    change (Go.split_colon (String c (h ++ String ":"%char t)) = String c h :: Go.split_colon t).
    cbn [Go.split_colon]. rewrite (IH Hh), Hc. reflexivity.
Qed.

(** ** base64.StdEncoding *)


Lemma enc_dec (m : nat) : (m < 64)%nat ->
  Base64.dec (Base64.enc (Z.of_nat m)) = Some (Z.of_nat m) /\
  Ascii.eqb (Base64.enc (Z.of_nat m)) "="%char = false.
Proof.
  intros H. do 64 (destruct m as [| m]; [split; reflexivity |]). lia.
Qed.

Lemma enc_dec_Z (n : Z) : 0 <= n < 64 ->
  Base64.dec (Base64.enc n) = Some n /\ Ascii.eqb (Base64.enc n) "="%char = false.
Proof.
  intros H. rewrite <- (Z2Nat.id n) by lia. apply enc_dec. lia.
Qed.

Lemma divmod_small (k q r : Z) : 0 < k -> 0 <= r < k -> (q * k + r) / k = q /\ (q * k + r) mod k = r.
Proof.
  intros Hk Hr. split.
  - symmetry. apply (Z.div_unique _ _ _ r); [left; exact Hr | ring].
  - symmetry. apply (Z.mod_unique _ _ q); [left; exact Hr | ring].
Qed.

Lemma base64_group (a b c : Z) : 0 <= a < 256 -> 0 <= b < 256 -> 0 <= c < 256 ->
  let s0 := a / 4 in let s1 := (a mod 4) * 16 + b / 16 in
  let s2 := (b mod 16) * 4 + c / 64 in let s3 := c mod 64 in
  0 <= s0 < 64 /\ 0 <= s1 < 64 /\ 0 <= s2 < 64 /\ 0 <= s3 < 64 /\
  s0 * 4 + s1 / 16 = a /\ (s1 mod 16) * 16 + s2 / 4 = b /\ (s2 mod 4) * 64 + s3 = c.
Proof.
  cbv zeta. intros Ha Hb Hc.
  pose proof (Z.div_mod a 4 ltac:(lia)). pose proof (Z.mod_pos_bound a 4 ltac:(lia)).
  pose proof (Z.div_mod b 16 ltac:(lia)). pose proof (Z.mod_pos_bound b 16 ltac:(lia)).
  pose proof (Z.div_mod c 64 ltac:(lia)). pose proof (Z.mod_pos_bound c 64 ltac:(lia)).
  set (qa := a / 4) in *. set (ra := a mod 4) in *.
  set (qb := b / 16) in *. set (rb := b mod 16) in *.
  set (qc := c / 64) in *. set (rc := c mod 64) in *.
  destruct (divmod_small 16 ra qb ltac:(lia) ltac:(lia)) as [E1 E2].
  destruct (divmod_small 4 rb qc ltac:(lia) ltac:(lia)) as [E3 E4].
  rewrite E1, E2, E3, E4.
  repeat split; lia.
Qed.

Lemma byte_bound (x : ascii) : 0 <= Base64.byte x < 256.
Proof. unfold Base64.byte. pose proof (N_ascii_bounded x). lia. Qed.

Lemma unbyte_byte (x : ascii) : Base64.unbyte (Base64.byte x) = x.
Proof. unfold Base64.unbyte, Base64.byte. rewrite N2Z.id. apply ascii_N_embedding. Qed.

Lemma base64_roundtrip_n (n : nat) :
  forall l, (length l <= n)%nat -> Base64.DecodeString (Base64.EncodeToString l) = Some l.
Proof.
  induction n as [| n IH]; intros l Hl.
  { destruct l; [reflexivity | cbn in Hl; lia]. }
  destruct l as [| x [| y [| z rest]]]; [reflexivity | | |].
  - pose proof (byte_bound x) as Hx.
    destruct (base64_group (Base64.byte x) 0 0 Hx ltac:(lia) ltac:(lia))
      as (B0 & B1 & _ & _ & E0 & _ & _).
    rewrite Z.div_0_l, Z.add_0_r in B1, E0 by lia.
    cbn [Base64.EncodeToString Base64.DecodeString].
    rewrite (proj1 (enc_dec_Z _ B0)), (proj1 (enc_dec_Z _ B1)).
    cbn [Ascii.eqb Bool.eqb andb]. rewrite E0, unbyte_byte. reflexivity.
  - pose proof (byte_bound x) as Hx. pose proof (byte_bound y) as Hy.
    destruct (base64_group (Base64.byte x) (Base64.byte y) 0 Hx Hy ltac:(lia))
      as (B0 & B1 & B2 & _ & E0 & E1 & _).
    rewrite Z.div_0_l, Z.add_0_r in B2, E1 by lia.
    cbn [Base64.EncodeToString Base64.DecodeString].
    rewrite (proj1 (enc_dec_Z _ B0)), (proj1 (enc_dec_Z _ B1)).
    cbn [Ascii.eqb Bool.eqb andb].
    rewrite (proj2 (enc_dec_Z _ B2)), (proj1 (enc_dec_Z _ B2)).
    rewrite E0, E1, !unbyte_byte. reflexivity.
  - pose proof (byte_bound x) as Hx. pose proof (byte_bound y) as Hy.
    pose proof (byte_bound z) as Hz.
    destruct (base64_group (Base64.byte x) (Base64.byte y) (Base64.byte z) Hx Hy Hz)
      as (B0 & B1 & B2 & B3 & E0 & E1 & E2).
    cbn [Base64.EncodeToString Base64.DecodeString].
    rewrite (proj1 (enc_dec_Z _ B0)), (proj1 (enc_dec_Z _ B1)), (proj2 (enc_dec_Z _ B3)),
      (proj1 (enc_dec_Z _ B2)), (proj1 (enc_dec_Z _ B3)).
    rewrite (IH rest) by (cbn in Hl; lia).
    rewrite E0, E1, E2, !unbyte_byte. reflexivity.
Qed.

Lemma base64_length_n (n : nat) :
  forall l, (length l <= n)%nat ->
  String.length (Base64.EncodeToString l) = (4 * ((length l + 2) / 3))%nat.
Proof.
  induction n as [| n IH]; intros l Hl.
  { destruct l; [reflexivity | cbn in Hl; lia]. }
  destruct l as [| x [| y [| z rest]]]; [reflexivity | reflexivity | reflexivity |].
  cbn [Base64.EncodeToString String.length length].
  rewrite (IH rest) by (cbn in Hl; lia).
  replace (S (S (S (length rest))) + 2)%nat with (length rest + 2 + 1 * 3)%nat by lia.
  rewrite Nat.div_add by lia. lia.
Qed.

(** ** ParseSSHAddress *)

Lemma split_colon_one (s a : string) :
  Go.split_colon s = [a] -> s = a /\ has_colon a = false.
Proof.
  revert a. induction s as [| c t IH]; intros a H.
  - cbn in H. injection H as <-. split; reflexivity.
  - cbn in H. destruct (Go.split_colon t) as [| f fs] eqn:E; [discriminate |].
    destruct (Ascii.eqb c ":"%char) eqn:Ec; [discriminate |].
    injection H as <- ->. destruct (IH f eq_refl) as [-> Hf].
    split; [reflexivity | cbn; rewrite Ec, Hf; reflexivity].
Qed.

Lemma split_colon_two (s a b : string) :
  Go.split_colon s = [a; b] ->
  s = (a ++ String ":"%char b)%string /\ has_colon a = false /\ has_colon b = false.
Proof.
  revert a b. induction s as [| c t IH]; intros a b H.
  - discriminate.
  - cbn in H. destruct (Go.split_colon t) as [| f fs] eqn:E; [discriminate |].
    destruct (Ascii.eqb c ":"%char) eqn:Ec.
    + injection H as <- <- ->. apply Ascii.eqb_eq in Ec. subst c.
      destruct (split_colon_one _ _ E) as [-> Hf]. split; [reflexivity | split; [reflexivity | exact Hf]].
    + injection H as <- ->. destruct (IH f b eq_refl) as (-> & Hf & Hb).
      split; [reflexivity |]. split; [cbn; rewrite Ec, Hf; reflexivity | exact Hb].
Qed.

Lemma Atoi_range (s : string) (n : Z) : Go.Atoi s = Some n -> Go.int_min <= n <= Go.int_max.
Proof.
  unfold Go.Atoi.
  destruct (match s with
            | String c t => if Ascii.eqb c "+"%char then (false, t)
                            else if Ascii.eqb c "-"%char then (true, t) else (false, s)
            | EmptyString => (false, s)
            end) as [neg body].
  destruct body as [| c t]; [discriminate |].
  destruct (Go.digits_value (String c t) 0) as [v |]; [| discriminate].
  destruct ((Go.int_min <=? (if neg then - v else v)) && ((if neg then - v else v) <=? Go.int_max))
    eqn:E; [| discriminate].
  intros H. injection H as <-. apply andb_true_iff in E as [E1 E2].
  apply Z.leb_le in E1, E2. lia.
Qed.

(** X1.  For a host with no colon and any [int] port, the address
    ["host:port"] written with [strconv.Itoa] parses back to that host
    and port.  The port is not range-checked: negative ports and ports
    above 65535 are accepted. *)
Theorem ParseSSHAddress_roundtrip (h : string) (port : Z) :
  has_colon h = false -> Go.int_min <= port <= Go.int_max ->
  ParseSSHAddress (h ++ String ":"%char (Go.Itoa port)) = Some (h, port).
Proof.
  intros Hh Hp. unfold ParseSSHAddress.
  rewrite (split_colon_app _ _ Hh), (split_colon_no_colon _ (Itoa_no_colon port)).
  rewrite (Atoi_Itoa _ Hp). reflexivity.
Qed.

Lemma ParseSSHAddress_roundtrip_witness :
  (has_colon "10.0.0.5" = false /\ Go.int_min <= -1 <= Go.int_max) /\
  ParseSSHAddress ("10.0.0.5" ++ String ":"%char (Go.Itoa (-1))) = Some ("10.0.0.5", -1).
Proof.
  split; [split; [reflexivity | unfold Go.int_min, Go.int_max; lia] |].
  apply ParseSSHAddress_roundtrip; [reflexivity | unfold Go.int_min, Go.int_max; lia].
Defined.

(** X2.  [ParseSSHAddress] succeeds exactly on a string with one colon
    whose part after the colon is accepted by [strconv.Atoi]; the host
    is the part before the colon, possibly empty.  An address with more
    than one colon, such as a bare IPv6 literal, is rejected. *)
Theorem ParseSSHAddress_iff (addr h : string) (p : Z) :
  ParseSSHAddress addr = Some (h, p) <->
  exists ps, addr = (h ++ String ":"%char ps)%string /\ has_colon h = false /\
             has_colon ps = false /\ Go.Atoi ps = Some p.
Proof.
  unfold ParseSSHAddress. split.
  - destruct (Go.split_colon addr) as [| a [| b [| c rest]]] eqn:E; try discriminate.
    destruct (Go.Atoi b) as [n |] eqn:Eb; [| discriminate].
    intros H. injection H as <- <-.
    destruct (split_colon_two _ _ _ E) as (-> & Ha & Hb).
    exists b. repeat split; assumption.
  - intros (ps & -> & Hh & Hps & Hp).
    rewrite (split_colon_app _ _ Hh), (split_colon_no_colon _ Hps), Hp. reflexivity.
Qed.

(** ** basicAuth *)

Lemma length_list_ascii (s : string) : length (list_ascii_of_string s) = String.length s.
Proof. induction s as [| c t IH]; cbn; [reflexivity | rewrite IH; reflexivity]. Qed.

Lemma base64_roundtrip (l : list ascii) :
  Base64.DecodeString (Base64.EncodeToString l) = Some l.
Proof. apply (base64_roundtrip_n (length l)). lia. Qed.

Lemma base64_length (l : list ascii) :
  String.length (Base64.EncodeToString l) = (4 * ((length l + 2) / 3))%nat.
Proof. apply (base64_length_n (length l)). lia. Qed.

(** X3.  Every request of the client carries exactly one added header,
    [Authorization: Basic <token>]: [basicAuth] never yields the empty
    string, so [connectHTTPClient.Do] always sets it.  The token is the
    standard base64 of the bytes of ["user:pass"]: it decodes back to
    them (so no credential is lost, whatever colons or bytes they
    hold), and it has [4 * ceil(n / 3)] characters for [n] bytes. *)
Theorem basicAuth_header (user pass : string) :
  exists token,
    Auth.client_headers user pass = [("Authorization", String.append "Basic " token)] /\
    Base64.DecodeString token = Some (list_ascii_of_string (String.append user (String ":"%char pass))) /\
    String.length token =
      (4 * ((String.length (String.append user (String ":"%char pass)) + 2) / 3))%nat.
Proof.
  set (l := list_ascii_of_string (String.append user (String ":"%char pass))).
  exists (Base64.EncodeToString l). split; [| split].
  - reflexivity.
  - apply base64_roundtrip.
  - rewrite base64_length. unfold l. rewrite length_list_ascii. reflexivity.
Qed.

(** ** The REST client (part_002) and its callers *)

Lemma GetLabels_request_some_arg (name version : string) :
  name <> "" \/ version <> "" ->
  Rest.GetLabels_request true name version =
    Rest.Request "GET" "/api/v1/label/"
      ((if String.eqb name "" then [] else [("name", name)]) ++
       (if String.eqb version "" then [] else [("version", version)])) false.
Proof.
  intros H. unfold Rest.GetLabels_request, Rest.makeRequest. cbn [String.eqb Ascii.eqb Bool.eqb].
  destruct (String.eqb name "") eqn:En, (String.eqb version "") eqn:Ev; try reflexivity.
  apply String.eqb_eq in En, Ev. destruct H; contradiction.
Qed.

Lemma GetLabels_request_bad_base (name version : string) :
  Rest.GetLabels_request false name version = Rest.InvalidBaseURL.
Proof. reflexivity. Qed.

(** X4.  The REST [GetLabels] request panics exactly when the base URL
    parses and both the name and the version are empty: the nil
    [*url.Values] it then passes to [makeRequest] is a non-nil [any],
    and [Encode] is called on the nil pointer.  When the base URL does
    not parse, it returns "invalid base URL" and sends nothing.
    Otherwise, with either argument non-empty, it sends a GET to
    [/api/v1/label/] whose query holds exactly the non-empty ones. *)
Theorem GetLabels_request_panic (base_ok : bool) (name version : string) :
  (Rest.GetLabels_request base_ok name version = Rest.Panic <->
     base_ok = true /\ name = "" /\ version = "") /\
  (base_ok = false -> Rest.GetLabels_request base_ok name version = Rest.InvalidBaseURL) /\
  (base_ok = true -> name <> "" \/ version <> "" ->
   Rest.GetLabels_request base_ok name version =
     Rest.Request "GET" "/api/v1/label/"
       ((if String.eqb name "" then [] else [("name", name)]) ++
        (if String.eqb version "" then [] else [("version", version)])) false).
Proof.
  destruct base_ok.
  2:{ split; [split; [discriminate | intros [H _]; discriminate] |].
      split; [intros _; reflexivity | intros H; discriminate]. }
  split; [| split; [intros H; discriminate | intros _; apply GetLabels_request_some_arg]].
  unfold Rest.GetLabels_request, Rest.makeRequest. cbn [String.eqb Ascii.eqb Bool.eqb].
  destruct (String.eqb name "") eqn:En, (String.eqb version "") eqn:Ev;
    apply String.eqb_eq in En || apply String.eqb_neq in En;
    apply String.eqb_eq in Ev || apply String.eqb_neq in Ev; cbn [negb orb].
  - split; [intros _; split; [reflexivity | split; assumption] | reflexivity].
  - split; [discriminate | intros (_ & _ & H); contradiction].
  - split; [discriminate | intros (_ & H & _); contradiction].
  - split; [discriminate | intros (_ & H & _); contradiction].
Qed.

Lemma query_version_nonempty (v : string) : FindLabel.query_version v <> "".
Proof.
  unfold FindLabel.query_version. destruct (String.eqb v "") eqn:E; [discriminate |].
  apply String.eqb_neq in E. exact E.
Qed.

(** X5.  The label request [StepFindLabel.Run] sends through the REST
    client never panics: the version it passes is the configured one or
    ["last"], never empty.  When the base URL parses, the request is a
    GET to [/api/v1/label/] whose query carries that version, and the
    label name whenever it is non-empty. *)
Theorem find_label_query_never_panics (base_ok : bool) (LabelName LabelVersion : string) :
  Rest.GetLabels_request base_ok LabelName (FindLabel.query_version LabelVersion) <> Rest.Panic /\
  (base_ok = true ->
   exists q,
     Rest.GetLabels_request base_ok LabelName (FindLabel.query_version LabelVersion) =
       Rest.Request "GET" "/api/v1/label/" q false /\
     In ("version", FindLabel.query_version LabelVersion) q /\
     (LabelName <> "" -> In ("name", LabelName) q)).
Proof.
  pose proof (query_version_nonempty LabelVersion) as Hv.
  destruct base_ok; [| split; [rewrite GetLabels_request_bad_base; discriminate |
                               intros H; discriminate]].
  rewrite (GetLabels_request_some_arg _ _ (or_intror Hv)).
  split; [discriminate |]. intros _.
  eexists. split; [reflexivity |].
  apply String.eqb_neq in Hv. rewrite Hv. split.
  - apply in_or_app. right. left. reflexivity.
  - intros Hn. apply String.eqb_neq in Hn. rewrite Hn. left. reflexivity.
Qed.

(** The tick the polling [StepSetupSSH] of part_001 sees for an answer
    of the REST access call. *)
Definition access_tick (r : Rest.answer SetupSSH.Access) : SetupSSH.access_resp :=
  Rest.access_of (Rest.GetApplicationResourceAccess r).

Lemma repeat_snoc_S {A : Type} (x : A) (n : nat) : repeat x n ++ [x] = repeat x (S n).
Proof. induction n as [| n IH]; cbn; [reflexivity | rewrite IH; reflexivity]. Qed.

Lemma ssh_loop_not_found (comm : SetupSSH.CommConfig) (uid : string) (maxRetries : Z)
    (pre : list (Rest.answer SetupSSH.Access)) (more : list SetupSSH.access_resp) :
  forall rc, Forall (fun a => exists b, a = Rest.Answer 404 b) pre ->
  rc + Z.of_nat (length pre) <= maxRetries ->
  SetupSSH.loop comm uid maxRetries rc (map access_tick pre ++ more) =
    prepend (repeat (Api (CallGetResourceAccess uid)) (length pre))
      (SetupSSH.loop comm uid maxRetries (rc + Z.of_nat (length pre)) more).
Proof.
  induction pre as [| a pre IH]; intros rc Hpre Hlen.
  - cbn [map app length repeat]. rewrite Z.add_0_r.
    unfold prepend. destruct (SetupSSH.loop _ _ _ _ _); reflexivity.
  - inversion Hpre as [| ? ? [b ->] Hrest]; subst.
    cbn [length] in Hlen |- *. rewrite Nat2Z.inj_succ in Hlen |- *.
    cbn [map app SetupSSH.loop].
    destruct (maxRetries <? rc + 1) eqn:E; [apply Z.ltb_lt in E; lia |].
    unfold access_tick at 1. cbn.
    rewrite (IH (rc + 1) Hrest) by lia.
    replace (rc + 1 + Z.of_nat (length pre)) with (rc + Z.succ (Z.of_nat (length pre))) by lia.
    unfold prepend. reflexivity.
Qed.

(** X8.  The polling [StepSetupSSH.Run] of part_001 over the REST
    client: while the retry budget lasts, every 404 answer of the access
    call is "not available yet" and the step asks again on the next
    tick.  The first other answer settles the step: a 200 with a
    decodable access continues with the parsed address (or the
    communicator defaults), anything else halts with the access error.
    One access request is sent per answer read. *)
Theorem legacy_ssh_polling_rest (comm : SetupSSH.CommConfig) (uid : string)
    (ConnectionRetries : Z) (pre : list (Rest.answer SetupSSH.Access))
    (r : Rest.answer SetupSSH.Access) (rest : list (Rest.answer SetupSSH.Access)) :
  Forall (fun a => exists b, a = Rest.Answer 404 b) pre ->
  Z.of_nat (length pre) < SetupSSH.prepared_retries ConnectionRetries ->
  (forall b, r <> Rest.Answer 404 b) ->
  SetupSSH.run_loop comm ConnectionRetries uid (map access_tick (pre ++ r :: rest)) =
    (match r with
     | Rest.Answer code (Some a) =>
         if Z.eqb code 200
         then let '(h, p) := SetupSSH.resolve comm (SetupSSH.Address a) in SetupSSH.Continue h p
         else SetupSSH.Halt ErrSSHAccess
     | _ => SetupSSH.Halt ErrSSHAccess
     end,
     repeat (Api (CallGetResourceAccess uid)) (S (length pre))).
Proof.
  intros Hpre Hlen Hr. unfold SetupSSH.run_loop. rewrite map_app.
  rewrite (ssh_loop_not_found comm uid _ pre _ 0 Hpre) by lia.
  cbn [map SetupSSH.loop].
  destruct (SetupSSH.prepared_retries ConnectionRetries <? 0 + Z.of_nat (length pre) + 1) eqn:E;
    [apply Z.ltb_lt in E; lia |].
  unfold access_tick. rewrite <- repeat_snoc_S.
  destruct r as [| code [a |]]; cbn [Rest.GetApplicationResourceAccess Rest.decode_ok_or_404 Rest.access_of].
  - cbn. reflexivity.
  - destruct (Z.eqb code 200) eqn:E2.
    + unfold prepend. cbn -[SetupSSH.resolve].
      destruct (SetupSSH.resolve comm (SetupSSH.Address a)) as [h p]. reflexivity.
    + destruct (Z.eqb code 404) eqn:E4; [apply Z.eqb_eq in E4; subst; exfalso; exact (Hr _ eq_refl) |].
      unfold prepend. cbn. reflexivity.
  - destruct (Z.eqb code 200) eqn:E2; [unfold prepend; cbn; reflexivity |].
    destruct (Z.eqb code 404) eqn:E4; [apply Z.eqb_eq in E4; subst; exfalso; exact (Hr _ eq_refl) |].
    unfold prepend. cbn. reflexivity.
Qed.

Lemma legacy_ssh_polling_rest_witness :
  (Forall (fun a => exists b, a = Rest.Answer 404 b) [@Rest.Answer SetupSSH.Access 404 None] /\
   Z.of_nat (length [@Rest.Answer SetupSSH.Access 404 None]) < SetupSSH.prepared_retries 0 /\
   (forall b, @Rest.Answer SetupSSH.Access 500 None <> Rest.Answer 404 b)) /\
  SetupSSH.run_loop comm_defaults 0 "res-1"
    (map access_tick ([Rest.Answer 404 None] ++ Rest.Answer 500 None :: [])) =
    (SetupSSH.Halt ErrSSHAccess, repeat (Api (CallGetResourceAccess "res-1")) 2).
Proof.
  assert (H1 : Forall (fun a => exists b, a = Rest.Answer 404 b) [@Rest.Answer SetupSSH.Access 404 None]).
  { apply List.Forall_cons; [exists None; reflexivity | apply List.Forall_nil]. }
  assert (H2 : Z.of_nat (length [@Rest.Answer SetupSSH.Access 404 None]) < SetupSSH.prepared_retries 0).
  { unfold SetupSSH.prepared_retries. simpl. lia. }
  assert (H3 : forall b, @Rest.Answer SetupSSH.Access 500 None <> Rest.Answer 404 b).
  { intros b H. discriminate H. }
  split; [split; [exact H1 | split; [exact H2 | exact H3]] |].
  exact (legacy_ssh_polling_rest comm_defaults "res-1" 0 _ _ [] H1 H2 H3).
Defined.

(** The tick the wait loop of part_005 sees on an ["ALLOCATED"] state
    with description [d], for an answer of the REST resource call. *)
Definition allocated_tick (t : string * Rest.answer Wait.Resource) : Wait.tick string :=
  Wait.Tick "ALLOCATED" (fst t) (Rest.resource_of (Rest.GetApplicationResource (snd t))).

Lemma legacy_wait_pending_allocated (uid : string) (ticks : list (string * Rest.answer Wait.Resource)) :
  Forall (fun t => exists b, snd t = Rest.Answer 404 b) ticks ->
  Wait.loop String.eqb (fun s => s) Wait.branch_legacy uid "ALLOCATED" (map allocated_tick ticks) =
    (Wait.Halt ErrAllocationTimeout,
     flat_map (fun _ => [Api (CallGetApplicationState uid); Api (CallGetApplicationResource uid)]) ticks).
Proof.
  induction ticks as [| [d a] ticks IH]; intros H; [reflexivity |].
  inversion H as [| ? ? [b Hb] Hrest]; subst. cbn [snd] in Hb; subst a.
  cbn [map]. unfold allocated_tick at 1. cbn -[map].
  rewrite (IH Hrest). reflexivity.
Qed.

(** X9.  In the REST wait loop of part_005, an application that is
    ["ALLOCATED"] while its resource call answers 404 is not done: the
    step keeps polling and, if that lasts until the deadline, halts with
    the allocation timeout.  Each tick reads the state and then the
    resource, and the status line is printed only on the first tick,
    as the status does not change after it. *)
Theorem legacy_wait_resource_pending (uid : string) (ticks : list (string * Rest.answer Wait.Resource)) :
  Forall (fun t => exists b, snd t = Rest.Answer 404 b) ticks ->
  Wait.run_legacy uid (map allocated_tick ticks) =
    (Wait.Halt ErrAllocationTimeout,
     match ticks with
     | [] => []
     | (d, _) :: more =>
         [Api (CallGetApplicationState uid);
          Say (String.append "Application status: " (String.append "ALLOCATED" (String.append " - " d)));
          Api (CallGetApplicationResource uid)] ++
         flat_map (fun _ => [Api (CallGetApplicationState uid); Api (CallGetApplicationResource uid)]) more
     end).
Proof.
  intros H. destruct ticks as [| [d a] more]; [reflexivity |].
  inversion H as [| ? ? [b Hb] Hrest]; subst. cbn [snd] in Hb; subst a.
  unfold Wait.run_legacy. cbn [map]. unfold allocated_tick at 1. cbn -[map].
  rewrite (legacy_wait_pending_allocated uid more Hrest). reflexivity.
Qed.

Lemma legacy_wait_resource_pending_witness :
  Forall (fun t => exists b, snd t = Rest.Answer 404 b)
    [("waiting", @Rest.Answer Wait.Resource 404 None); ("waiting", Rest.Answer 404 None)] /\
  fst (Wait.run_legacy "app-1"
         (map allocated_tick [("waiting", Rest.Answer 404 None); ("waiting", Rest.Answer 404 None)])) =
    Wait.Halt ErrAllocationTimeout.
Proof.
  assert (H : Forall (fun t => exists b, snd t = Rest.Answer 404 b)
                [("waiting", @Rest.Answer Wait.Resource 404 None); ("waiting", Rest.Answer 404 None)]).
  { repeat apply List.Forall_cons; try apply List.Forall_nil; exists None; reflexivity. }
  split; [exact H |].
  rewrite (legacy_wait_resource_pending "app-1" _ H). reflexivity.
Defined.

(** ** Builder.Prepare *)

Section PrepareProps.
Variable ParseDuration : string -> option Z.

Lemma Prepare_inr (c0 c : Prepare.Config) (vars : list string) :
  Prepare.Prepare ParseDuration (Some c0) = inr (c, vars) ->
  exists ct at',
    ParseDuration (Prepare.ConnectionTimeout (Prepare.set_defaults c0)) = Some ct /\
    ParseDuration (Prepare.AllocationTimeout (Prepare.set_defaults c0)) = Some at' /\
    Prepare.Endpoint c0 <> "" /\ Prepare.Username c0 <> "" /\
    Prepare.Password c0 <> "" /\ Prepare.LabelName c0 <> "" /\
    c = Prepare.set_comm_type (Prepare.set_durations (Prepare.set_defaults c0) ct at') /\
    vars = Prepare.generatedVars.
Proof.
  unfold Prepare.Prepare.
  destruct (ParseDuration (Prepare.ConnectionTimeout (Prepare.set_defaults c0))) as [ct |] eqn:Ect;
    [| discriminate].
  destruct (ParseDuration (Prepare.AllocationTimeout (Prepare.set_defaults c0))) as [at' |] eqn:Eat;
    [| discriminate].
  cbn [Prepare.Endpoint Prepare.Username Prepare.Password Prepare.LabelName
       Prepare.set_durations Prepare.set_defaults].
  destruct (String.eqb (Prepare.Endpoint c0) "") eqn:E1; [discriminate |].
  destruct (String.eqb (Prepare.Username c0) "") eqn:E2; [discriminate |].
  destruct (String.eqb (Prepare.Password c0) "") eqn:E3; [discriminate |].
  destruct (String.eqb (Prepare.LabelName c0) "") eqn:E4; [discriminate |].
  apply String.eqb_neq in E1, E2, E3, E4.
  intros H. injection H as <- <-.
  exists ct, at'. repeat split; assumption.
Qed.

(** X10.  A successful [Prepare] returns the four generated variable
    names and a configuration in which: the four required fields are
    the given, non-empty ones; each timeout is the given one or, when
    empty, its default (["30m"], ["10m"]), and its parsed duration is
    what [time.ParseDuration] gives for it; the retry count is the
    given one when positive and 60 otherwise; the communicator type is
    the given one or ["ssh"].  It succeeds exactly when both timeouts
    parse and the four required fields are non-empty. *)
Theorem Prepare_success (c0 : Prepare.Config) :
  (forall c vars, Prepare.Prepare ParseDuration (Some c0) = inr (c, vars) ->
    vars = ["ApplicationUID"; "ResourceUID"; "SSHHost"; "SSHPort"] /\
    Prepare.Endpoint c = Prepare.Endpoint c0 /\ Prepare.Username c = Prepare.Username c0 /\
    Prepare.Password c = Prepare.Password c0 /\ Prepare.LabelName c = Prepare.LabelName c0 /\
    Prepare.Endpoint c <> "" /\ Prepare.Username c <> "" /\
    Prepare.Password c <> "" /\ Prepare.LabelName c <> "" /\
    Prepare.ConnectionTimeout c =
      (if String.eqb (Prepare.ConnectionTimeout c0) "" then "30m" else Prepare.ConnectionTimeout c0) /\
    Prepare.AllocationTimeout c =
      (if String.eqb (Prepare.AllocationTimeout c0) "" then "10m" else Prepare.AllocationTimeout c0) /\
    ParseDuration (Prepare.ConnectionTimeout c) = Some (Prepare.connectionTimeoutDuration c) /\
    ParseDuration (Prepare.AllocationTimeout c) = Some (Prepare.allocationTimeoutDuration c) /\
    Prepare.ConnectionRetries c =
      (if Prepare.ConnectionRetries c0 <=? 0 then 60 else Prepare.ConnectionRetries c0) /\
    0 < Prepare.ConnectionRetries c /\
    Prepare.CommType c = (if String.eqb (Prepare.CommType c0) "" then "ssh" else Prepare.CommType c0) /\
    Prepare.CommType c <> "") /\
  ((exists c vars, Prepare.Prepare ParseDuration (Some c0) = inr (c, vars)) <->
   ParseDuration (Prepare.ConnectionTimeout (Prepare.set_defaults c0)) <> None /\
   ParseDuration (Prepare.AllocationTimeout (Prepare.set_defaults c0)) <> None /\
   Prepare.Endpoint c0 <> "" /\ Prepare.Username c0 <> "" /\
   Prepare.Password c0 <> "" /\ Prepare.LabelName c0 <> "").
Proof.
  split.
  - intros c vars H.
    destruct (Prepare_inr c0 c vars H) as (ct & at' & Hct & Hat & H1 & H2 & H3 & H4 & -> & ->).
    cbn [Prepare.set_comm_type Prepare.set_durations Prepare.set_defaults Prepare.Endpoint
         Prepare.Username Prepare.Password Prepare.LabelName Prepare.ConnectionTimeout
         Prepare.AllocationTimeout Prepare.connectionTimeoutDuration
         Prepare.allocationTimeoutDuration Prepare.ConnectionRetries Prepare.CommType]
      in Hct, Hat |- *.
    unfold SetupSSH.prepared_retries.
    do 14 (split; [first [reflexivity | assumption] |]).
    split; [destruct (Prepare.ConnectionRetries c0 <=? 0) eqn:E; [lia | apply Z.leb_gt in E; lia] |].
    split; [reflexivity |].
    destruct (String.eqb (Prepare.CommType c0) "") eqn:E; [discriminate |].
    apply String.eqb_neq in E. exact E.
  - split.
    + intros (c & vars & H).
      destruct (Prepare_inr c0 c vars H) as (ct & at' & Hct & Hat & H1 & H2 & H3 & H4 & _).
      rewrite Hct, Hat. repeat split; try discriminate; assumption.
    + intros (Hct & Hat & H1 & H2 & H3 & H4).
      destruct (ParseDuration (Prepare.ConnectionTimeout (Prepare.set_defaults c0))) as [ct |] eqn:Ect;
        [| contradiction].
      destruct (ParseDuration (Prepare.AllocationTimeout (Prepare.set_defaults c0))) as [at' |] eqn:Eat;
        [| contradiction].
      unfold Prepare.Prepare. rewrite Ect, Eat.
      cbn [Prepare.Endpoint Prepare.Username Prepare.Password Prepare.LabelName
           Prepare.set_durations Prepare.set_defaults].
      apply String.eqb_neq in H1, H2, H3, H4. rewrite H1, H2, H3, H4.
      eexists. eexists. reflexivity.
Qed.

(** X11.  [Prepare] is idempotent: preparing the configuration a
    successful [Prepare] produced succeeds again with the same
    configuration and variables, as no default it sets is replaced. *)
Theorem Prepare_idempotent (c0 c : Prepare.Config) (vars : list string) :
  Prepare.Prepare ParseDuration (Some c0) = inr (c, vars) ->
  Prepare.Prepare ParseDuration (Some c) = inr (c, vars).
Proof.
  intros H.
  destruct (Prepare_inr c0 c vars H) as (ct & at' & Hct & Hat & H1 & H2 & H3 & H4 & -> & ->).
  unfold Prepare.Prepare.
  cbn [Prepare.set_comm_type Prepare.set_durations Prepare.set_defaults Prepare.Endpoint
       Prepare.Username Prepare.Password Prepare.LabelName Prepare.ConnectionTimeout
       Prepare.AllocationTimeout Prepare.connectionTimeoutDuration
       Prepare.allocationTimeoutDuration Prepare.ConnectionRetries Prepare.CommType]
    in Hct, Hat |- *.
  assert (Ect : String.eqb (if String.eqb (Prepare.ConnectionTimeout c0) "" then "30m"
                            else Prepare.ConnectionTimeout c0) "" = false).
  { destruct (String.eqb (Prepare.ConnectionTimeout c0) "") eqn:E; [reflexivity | exact E]. }
  assert (Eat : String.eqb (if String.eqb (Prepare.AllocationTimeout c0) "" then "10m"
                            else Prepare.AllocationTimeout c0) "" = false).
  { destruct (String.eqb (Prepare.AllocationTimeout c0) "") eqn:E; [reflexivity | exact E]. }
  assert (Ecm : String.eqb (if String.eqb (Prepare.CommType c0) "" then "ssh"
                            else Prepare.CommType c0) "" = false).
  { destruct (String.eqb (Prepare.CommType c0) "") eqn:E; [reflexivity | exact E]. }
  assert (Er : SetupSSH.prepared_retries (SetupSSH.prepared_retries (Prepare.ConnectionRetries c0)) =
               SetupSSH.prepared_retries (Prepare.ConnectionRetries c0)).
  { unfold SetupSSH.prepared_retries.
    destruct (Prepare.ConnectionRetries c0 <=? 0) eqn:E; [reflexivity |].
    rewrite E. reflexivity. }
  rewrite Ect, Eat, Hct, Hat.
  apply String.eqb_neq in H1, H2, H3, H4. rewrite H1, H2, H3, H4.
  do 2 f_equal.
  unfold Prepare.set_comm_type, Prepare.set_durations, Prepare.set_defaults.
  cbn [Prepare.Endpoint Prepare.Username Prepare.Password Prepare.LabelName Prepare.ConnectionTimeout
       Prepare.AllocationTimeout Prepare.connectionTimeoutDuration
       Prepare.allocationTimeoutDuration Prepare.ConnectionRetries Prepare.CommType].
  rewrite Ect, Eat, Ecm, Er. reflexivity.
Qed.

End PrepareProps.

(** A duration parser that knows the two defaults and ["5m"]. *)
Definition parse_minutes (s : string) : option Z :=
  if String.eqb s "30m" then Some 1800000000000
  else if String.eqb s "10m" then Some 600000000000
  else if String.eqb s "5m" then Some 300000000000
  else None.

Definition prepare_input : Prepare.Config := {|
  Prepare.Endpoint := "https://fish.example:8001/"; Prepare.Username := "admin";
  Prepare.Password := "secret"; Prepare.LabelName := "ubuntu";
  Prepare.ConnectionTimeout := ""; Prepare.ConnectionRetries := 0;
  Prepare.AllocationTimeout := "5m"; Prepare.CommType := "";
  Prepare.connectionTimeoutDuration := 0; Prepare.allocationTimeoutDuration := 0 |}.

Lemma Prepare_success_witness :
  exists c vars, Prepare.Prepare parse_minutes (Some prepare_input) = inr (c, vars) /\
    Prepare.ConnectionRetries c = 60 /\ Prepare.ConnectionTimeout c = "30m".
Proof.
  destruct (Prepare.Prepare parse_minutes (Some prepare_input)) as [e | [c vars]] eqn:E.
  - vm_compute in E. discriminate.
  - exists c, vars. split; [reflexivity |].
    destruct (proj1 (Prepare_success parse_minutes prepare_input) c vars E)
      as (_ & _ & _ & _ & _ & _ & _ & _ & _ & Hct & _ & _ & _ & Hr & _).
    split; [exact Hr | exact Hct].
Defined.

Lemma Prepare_idempotent_witness :
  exists c vars, Prepare.Prepare parse_minutes (Some prepare_input) = inr (c, vars) /\
    Prepare.Prepare parse_minutes (Some c) = inr (c, vars).
Proof.
  destruct (Prepare.Prepare parse_minutes (Some prepare_input)) as [e | [c vars]] eqn:E.
  - vm_compute in E. discriminate.
  - exists c, vars. split; [reflexivity | exact (Prepare_idempotent parse_minutes _ _ _ E)].
Defined.

(** ** Builder.Run: the SSH endpoint and the host function *)



Lemma run_success_state (cfg : Builder.Config) (env : Builder.Env)
    (gd : gmap string string) (s : Builder.State) (evs : list event) :
  Builder.Run cfg env = (Builder.Artifact gd, s, evs) ->
  gd = Builder.generated_data s /\
  (exists ev ran, Builder.run_forward cfg env Builder.steps Builder.initial_state [] = (s, ev, ran)) /\
  exists l uid r h p,
    s = Builder.set_ssh (Builder.set_resource (Builder.set_application
          (Builder.set_selected_label (Builder.set_api_client Builder.initial_state) l) uid) r) h p.
Proof.
  intros H. destruct (run_artifact cfg env gd s evs H) as (ev & ran & E & Eerr & -> & _).
  split; [reflexivity |]. split; [exists ev, ran; exact E |].
  pose proof (run_forward_success cfg env Builder.steps _ _ _ _ _ E Eerr) as Hc.
  cbn [all_cont cont_rel Builder.steps] in Hc.
  destruct Hc as (s1 & -> & s2 & -> & s3 & (l & ->) & s4 & (uid & ->) & s5 & (r & ->) &
                  s6 & (h & p & ->) & s7 & -> & s8 & -> & s9 & -> & ->).
  exists l, uid, r, h, p. reflexivity.
Qed.

Definition port_inv (s : Builder.State) : Prop :=
  forall p, Builder.ssh_port s = Some p -> Go.int_min <= p <= Go.int_max.

Lemma resolve_port_range (comm : SetupSSH.CommConfig) (addr : string) :
  Go.int_min <= SetupSSH.SSHPort comm <= Go.int_max ->
  Go.int_min <= snd (SetupSSH.resolve comm addr) <= Go.int_max.
Proof.
  intros Hc. unfold SetupSSH.resolve.
  destruct (ParseSSHAddress addr) as [[h p] |] eqn:E; [| exact Hc].
  unfold ParseSSHAddress in E.
  destruct (Go.split_colon addr) as [| f1 [| f2 [| f3 fs]]]; try discriminate.
  destruct (Go.Atoi f2) as [n |] eqn:En; [| discriminate].
  injection E as _ <-. exact (Atoi_range _ _ En).
Qed.

Lemma step_run_port_inv (cfg : Builder.Config) (env : Builder.Env)
    (st : Builder.Step) (s : Builder.State) :
  Go.int_min <= SetupSSH.SSHPort (Builder.Communicator cfg) <= Go.int_max ->
  port_inv s -> port_inv (snd (fst (Builder.step_run cfg env st s))).
Proof.
  intros Hc Hs.
  destruct st; cbn [Builder.step_run]; try unfold SetupSSH.run_v2;
    repeat match goal with
           | |- context [match ?x with _ => _ end] =>
               let E := fresh "E" in destruct x eqn:E
           end; cbn [fst snd]; try exact Hs.
  match goal with
  | E1 : match Builder.access_resp env with _ => _ end = (SetupSSH.Continue _ _, _) |- _ =>
      destruct (Builder.access_resp env) as [| a]; [discriminate |];
      destruct (SetupSSH.resolve (Builder.Communicator cfg) (SetupSSH.GetAddress a))
        as [h' p'] eqn:Er;
      injection E1 as <- <- _;
      intros p0 Hp; cbn in Hp; injection Hp as <-;
      pose proof (resolve_port_range (Builder.Communicator cfg) (SetupSSH.GetAddress a) Hc) as Hr;
      rewrite Er in Hr; exact Hr
  end.
Qed.

Lemma run_forward_port_inv (cfg : Builder.Config) (env : Builder.Env) (sts : list Builder.Step) :
  Go.int_min <= SetupSSH.SSHPort (Builder.Communicator cfg) <= Go.int_max ->
  forall s ran s' ev ran',
  Builder.run_forward cfg env sts s ran = (s', ev, ran') -> port_inv s -> port_inv s'.
Proof.
  intros Hc. induction sts as [| st rest IH]; intros s ran s' ev ran' Hrun Hinv.
  - cbn in Hrun. injection Hrun as <- _ _. exact Hinv.
  - cbn [Builder.run_forward] in Hrun.
    pose proof (step_run_port_inv cfg env st s Hc Hinv) as Hinv'.
    destruct (Builder.step_run cfg env st s) as [[act s1] ev1] eqn:Estep.
    cbn [fst snd] in Hinv'.
    destruct act.
    + destruct (Builder.run_forward cfg env rest s1 (st :: ran)) as [[s2 ev2] ran2] eqn:Erest.
      injection Hrun as <- _ _. exact (IH _ _ _ _ _ Erest Hinv').
    + injection Hrun as <- _ _. exact Hinv'.
Qed.

(** X12.  After a successful build the SSH endpoint in the generated
    data can be read back: SSHHost is the host the [host] function of
    the communicator returns, SSHPort is a decimal string that
    [strconv.Atoi] reads back to the port in the state, and, for a host
    with no colon, ["SSHHost:SSHPort"] parses with [ParseSSHAddress] to
    that host and port.  The communicator's own port is a Go [int]. *)
Theorem run_success_ssh_endpoint (cfg : Builder.Config) (env : Builder.Env)
    (gd : gmap string string) (s : Builder.State) (evs : list event) :
  Go.int_min <= SetupSSH.SSHPort (Builder.Communicator cfg) <= Go.int_max ->
  Builder.Run cfg env = (Builder.Artifact gd, s, evs) ->
  exists h ps p,
    host s = Some h /\ Builder.ssh_port s = Some p /\
    gd !! "SSHHost" = Some h /\ gd !! "SSHPort" = Some ps /\ Go.Atoi ps = Some p /\
    (has_colon h = false -> ParseSSHAddress (String.append h (String ":"%char ps)) = Some (h, p)).
Proof.
  intros Hc H.
  destruct (run_success_state cfg env gd s evs H) as (-> & (ev & ran & Erun) & l & uid & r & h & p & Es).
  pose proof (run_forward_port_inv cfg env _ Hc _ _ _ _ _ Erun) as Hinv.
  assert (Hp : Go.int_min <= p <= Go.int_max).
  { apply Hinv; [intros p0 Hp0; discriminate | subst s; reflexivity]. }
  subst s.
  exists h, (Go.Itoa p), p.
  split; [reflexivity |]. split; [reflexivity |].
  cbn [Builder.set_ssh Builder.generated_data].
  split; [rewrite lookup_insert_ne by discriminate; apply lookup_insert_eq |].
  split; [apply lookup_insert_eq |].
  split; [exact (Atoi_Itoa p Hp) |].
  intros Hh. unfold ParseSSHAddress.
  rewrite (split_colon_app _ _ Hh), (split_colon_no_colon _ (Itoa_no_colon p)), (Atoi_Itoa p Hp).
  reflexivity.
Qed.

Lemma run_success_ssh_endpoint_witness :
  Go.int_min <= SetupSSH.SSHPort (Builder.Communicator cfg_ex) <= Go.int_max /\
  match Builder.Run cfg_ex (env_success "10.0.0.9:2222") with
  | (Builder.Artifact gd, _, _) => exists ps p, gd !! "SSHPort" = Some ps /\ Go.Atoi ps = Some p
  | _ => False
  end.
Proof.
  assert (Hc : Go.int_min <= SetupSSH.SSHPort (Builder.Communicator cfg_ex) <= Go.int_max).
  { vm_compute. split; discriminate. }
  split; [exact Hc |].
  destruct (Builder.Run cfg_ex (env_success "10.0.0.9:2222")) as [[res s] evs] eqn:E.
  pose proof E as E'. vm_compute in E'. injection E' as Hres _ _. subst res.
  match type of E with
  | _ = (Builder.Artifact ?gd, _, _) =>
      destruct (run_success_ssh_endpoint _ _ gd s evs Hc E)
        as (h & ps & p & _ & _ & _ & Hps & Hp & _);
      exists ps, p; split; [exact Hps | exact Hp]
  end.
Defined.



(** ** Early failures of Builder.Run *)

(** X14.  With the default -on-error mode, when the API connection
    test fails, the run fails with the connection error after one
    request: the user query.  No later step runs, and the cleanup sends
    nothing, as no API client was stored. *)
Theorem connect_failure_run (cfg : Builder.Config) (env : Builder.Env) :
  Builder.NewRunner (Builder.PackerOnError cfg) = Builder.NoWrap ->
  Builder.connect_ok env = false ->
  Builder.Run cfg env =
    (Builder.Failed ErrAPIConnection, Builder.halt Builder.initial_state ErrAPIConnection,
     [Api CallGetCurrentUser]).
Proof.
  intros Hw H. unfold Builder.Run. rewrite Hw. unfold Builder.steps.
  cbn [Builder.run_forward Builder.step_run]. rewrite H. reflexivity.
Qed.

Definition env_no_connection : Builder.Env := {|
  Builder.connect_ok := false; Builder.labels_resp := Some [label_v 3];
  Builder.create_app_resp := Some "app-1"; Builder.wait_ticks := [];
  Builder.access_resp := SetupSSH.AccErr; Builder.ssh_connect_ok := true;
  Builder.provision_ok := true; Builder.task_create_resp := None; Builder.task_ticks := [];
  Builder.dealloc_ok := true; Builder.cleanup_ticks := [];
  Builder.build_time := "2026-10-18T12:00:00Z"; Builder.ask_reply := Builder.AskCleanup |}.

Lemma connect_failure_run_witness :
  Builder.NewRunner (Builder.PackerOnError cfg_ex) = Builder.NoWrap /\
  Builder.connect_ok env_no_connection = false /\
  Builder.Run cfg_ex env_no_connection =
    (Builder.Failed ErrAPIConnection, Builder.halt Builder.initial_state ErrAPIConnection,
     [Api CallGetCurrentUser]).
Proof.
  split; [reflexivity |]. split; [reflexivity | apply connect_failure_run; reflexivity].
Defined.

(** X15.  With the default -on-error mode, when the label step halts,
    the run fails with the label step's error after exactly three
    requests: the user query, the event subscription and the label
    query.  No application is created, so none is deallocated. *)
Theorem label_failure_run (cfg : Builder.Config) (env : Builder.Env) (e : error) :
  Builder.NewRunner (Builder.PackerOnError cfg) = Builder.NoWrap ->
  Builder.connect_ok env = true ->
  FindLabel.Run (Builder.LabelName cfg) (Builder.LabelVersion cfg) (Builder.labels_resp env) =
    FindLabel.Halt e ->
  exists s,
    Builder.Run cfg env =
      (Builder.Failed e, s,
       [Api CallGetCurrentUser; Api CallSubscribe;
        Api (CallGetLabels (Builder.LabelName cfg) (FindLabel.query_version (Builder.LabelVersion cfg)))]) /\
    Builder.application s = None.
Proof.
  intros Hw Hc Hl. unfold Builder.Run. rewrite Hw. unfold Builder.steps.
  cbn [Builder.run_forward Builder.step_run].
  rewrite Hc. cbn [Builder.run_forward Builder.step_run negb Builder.set_api_client Builder.api_client].
  rewrite Hl. eexists. split; reflexivity.
Qed.

Definition env_no_label : Builder.Env := {|
  Builder.connect_ok := true; Builder.labels_resp := Some [];
  Builder.create_app_resp := Some "app-1"; Builder.wait_ticks := [];
  Builder.access_resp := SetupSSH.AccErr; Builder.ssh_connect_ok := true;
  Builder.provision_ok := true; Builder.task_create_resp := None; Builder.task_ticks := [];
  Builder.dealloc_ok := true; Builder.cleanup_ticks := [];
  Builder.build_time := "2026-10-18T12:00:00Z"; Builder.ask_reply := Builder.AskCleanup |}.

Lemma label_failure_run_witness :
  Builder.NewRunner (Builder.PackerOnError cfg_ex) = Builder.NoWrap /\
  Builder.connect_ok env_no_label = true /\
  FindLabel.Run (Builder.LabelName cfg_ex) (Builder.LabelVersion cfg_ex) (Builder.labels_resp env_no_label) =
    FindLabel.Halt (ErrLabelNotFound "macos") /\
  exists s, Builder.Run cfg_ex env_no_label =
      (Builder.Failed (ErrLabelNotFound "macos"), s,
       [Api CallGetCurrentUser; Api CallSubscribe; Api (CallGetLabels "macos" "last")]).
Proof.
  assert (Hw : Builder.NewRunner (Builder.PackerOnError cfg_ex) = Builder.NoWrap) by reflexivity.
  assert (H1 : Builder.connect_ok env_no_label = true) by reflexivity.
  assert (H2 : FindLabel.Run (Builder.LabelName cfg_ex) (Builder.LabelVersion cfg_ex)
                 (Builder.labels_resp env_no_label) = FindLabel.Halt (ErrLabelNotFound "macos"))
    by reflexivity.
  split; [exact Hw |]. split; [exact H1 | split; [exact H2 |]].
  destruct (label_failure_run cfg_ex env_no_label _ Hw H1 H2) as (s & Hs & _).
  exists s. exact Hs.
Defined.

(** ** StepCleanup.Cleanup *)

Definition terminal_cleanup_tick (t : Cleanup.state_resp) : Prop :=
  t = Cleanup.StErr \/ exists st, t = Cleanup.StOk st /\ In st ["DEALLOCATED"; "RECALLED"; "ERROR"].

Definition pending_cleanup_tick (t : Cleanup.state_resp) : Prop :=
  exists st, t = Cleanup.StOk st /\ ~ In st ["DEALLOCATED"; "RECALLED"; "ERROR"].

Lemma pending_cleanup_status (st : string) :
  ~ In st ["DEALLOCATED"; "RECALLED"; "ERROR"] ->
  String.eqb st "DEALLOCATED" || String.eqb st "RECALLED" = false /\ String.eqb st "ERROR" = false.
Proof.
  intros H.
  destruct (String.eqb st "DEALLOCATED") eqn:E1; [apply String.eqb_eq in E1; subst; exfalso; apply H; left; reflexivity |].
  destruct (String.eqb st "RECALLED") eqn:E2; [apply String.eqb_eq in E2; subst; exfalso; apply H; right; left; reflexivity |].
  destruct (String.eqb st "ERROR") eqn:E3; [apply String.eqb_eq in E3; subst; exfalso; apply H; right; right; left; reflexivity |].
  split; reflexivity.
Qed.

Lemma wait_deallocated_pending (uid : string) (pre more : list Cleanup.state_resp) :
  Forall pending_cleanup_tick pre ->
  Cleanup.wait_deallocated uid (pre ++ more) =
    repeat (Api (CallGetApplicationState uid)) (length pre) ++ Cleanup.wait_deallocated uid more.
Proof.
  induction pre as [| t pre IH]; intros H; [reflexivity |].
  inversion H as [| ? ? (st & -> & Hst) Hrest]; subst.
  destruct (pending_cleanup_status st Hst) as [E1 E2].
  cbn [app length repeat Cleanup.wait_deallocated]. rewrite E1, E2, (IH Hrest). reflexivity.
Qed.

(** X16.  The cleanup of a run that created an application sends the
    deallocation first.  If that request fails it sends nothing more.
    Otherwise it reads the state once per tick and stops at the first
    tick that is a read error or a terminal status (DEALLOCATED,
    RECALLED or ERROR); if none comes before the deadline, it has read
    the state once per tick. *)
Theorem cleanup_requests (uid : string) (ticks pre rest : list Cleanup.state_resp)
    (t : Cleanup.state_resp) :
  Cleanup.cleanup true (Some uid) false ticks = [Api (CallDeallocateApplication uid)] /\
  (Forall pending_cleanup_tick pre -> terminal_cleanup_tick t ->
   Cleanup.cleanup true (Some uid) true (pre ++ t :: rest) =
     Api (CallDeallocateApplication uid) ::
       repeat (Api (CallGetApplicationState uid)) (S (length pre))) /\
  (Forall pending_cleanup_tick pre ->
   Cleanup.cleanup true (Some uid) true pre =
     Api (CallDeallocateApplication uid) :: repeat (Api (CallGetApplicationState uid)) (length pre)).
Proof.
  split; [reflexivity |]. split.
  - intros Hpre Ht. cbn [Cleanup.cleanup negb]. f_equal.
    rewrite (wait_deallocated_pending uid pre _ Hpre), <- repeat_snoc_S.
    f_equal.
    destruct Ht as [-> | (st & -> & Hst)]; [reflexivity |].
    cbn [Cleanup.wait_deallocated].
    destruct Hst as [<- | [<- | [<- | []]]]; reflexivity.
  - intros Hpre. cbn [Cleanup.cleanup negb]. f_equal.
    rewrite <- (app_nil_r pre) at 1.
    rewrite (wait_deallocated_pending uid pre [] Hpre), app_nil_r. reflexivity.
Qed.

Lemma cleanup_requests_witness :
  (Forall pending_cleanup_tick [Cleanup.StOk "DEALLOCATE"] /\
   terminal_cleanup_tick (Cleanup.StOk "DEALLOCATED")) /\
  Cleanup.cleanup true (Some "app-1") true
    ([Cleanup.StOk "DEALLOCATE"] ++ Cleanup.StOk "DEALLOCATED" :: [Cleanup.StOk "ERROR"]) =
    Api (CallDeallocateApplication "app-1") :: repeat (Api (CallGetApplicationState "app-1")) 2.
Proof.
  assert (H1 : Forall pending_cleanup_tick [Cleanup.StOk "DEALLOCATE"]).
  { apply List.Forall_cons; [| apply List.Forall_nil].
    exists "DEALLOCATE". split; [reflexivity |]. cbn. intros [H | [H | [H | []]]]; discriminate H. }
  assert (H2 : terminal_cleanup_tick (Cleanup.StOk "DEALLOCATED")).
  { right. exists "DEALLOCATED". split; [reflexivity | left; reflexivity]. }
  split; [split; [exact H1 | exact H2] |].
  exact (proj1 (proj2 (cleanup_requests "app-1" [] _ [Cleanup.StOk "ERROR"] _)) H1 H2).
Defined.

(** ** StepWaitForAllocation: the status line *)

Lemma wait_v2_same_status (uid : string) (st : Wait.Status) (r : Wait.resource_resp)
    (ds : list string) :
  Wait.branch_v2 st = Wait.BrIntermediate ->
  Wait.loop (fun a b => bool_decide (a = b)) Wait.status_name_v2 Wait.branch_v2 uid st
    (map (fun d => Wait.Tick st d r) ds) =
    (Wait.Halt ErrAllocationTimeout, repeat (Api (CallGetApplicationState uid)) (length ds)).
Proof.
  intros Hb. induction ds as [| d ds IH]; [reflexivity |].
  cbn [map Wait.loop]. rewrite bool_decide_true by reflexivity. cbn [negb]. rewrite Hb.
  rewrite IH. reflexivity.
Qed.

(** X17.  The gRPC wait loop prints the status line only when the
    status changes.  A NEW or ELECTED application polled until the
    deadline gets one status line, on the first tick, however many
    ticks there are.  A status that stays at the zero value
    UNSPECIFIED never gets a status line, since the last printed status
    starts at that value; each of its ticks prints the unknown-status
    line instead. *)
Theorem wait_v2_status_line (uid : string) (st : Wait.Status) (r : Wait.resource_resp)
    (d : string) (ds : list string) :
  (Wait.branch_v2 st = Wait.BrIntermediate ->
   Wait.run_v2 uid (map (fun d => Wait.Tick st d r) (d :: ds)) =
     (Wait.Halt ErrAllocationTimeout,
      Api (CallGetApplicationState uid) ::
      Say (String.append "Application status: "
             (String.append (Wait.status_name_v2 st) (String.append " - " d))) ::
      repeat (Api (CallGetApplicationState uid)) (length ds))) /\
  Wait.run_v2 uid (map (fun d => Wait.Tick Wait.UNSPECIFIED d r) (d :: ds)) =
    (Wait.Halt ErrAllocationTimeout,
     flat_map (fun _ => [Api (CallGetApplicationState uid);
                         Say "Unknown application status: UNSPECIFIED"]) (d :: ds)).
Proof.
  split.
  - intros Hb. unfold Wait.run_v2. cbn [map Wait.loop].
    assert (Hne : st <> Wait.UNSPECIFIED) by (intros ->; discriminate Hb).
    rewrite bool_decide_false by exact Hne. cbn [negb]. rewrite Hb.
    rewrite wait_v2_same_status by exact Hb. reflexivity.
  - unfold Wait.run_v2. generalize (d :: ds) as l. intros l.
    induction l as [| d' l IH]; [reflexivity |].
    cbn [map Wait.loop]. rewrite bool_decide_true by reflexivity. cbn [negb Wait.branch_v2].
    rewrite IH. reflexivity.
Qed.

Lemma wait_v2_status_line_witness :
  Wait.branch_v2 Wait.NEW = Wait.BrIntermediate /\
  snd (Wait.run_v2 "app-1" (map (fun d => Wait.Tick Wait.NEW d Wait.ResNone) ["queued"; "queued"; "queued"])) =
    [Api (CallGetApplicationState "app-1");
     Say "Application status: NEW - queued";
     Api (CallGetApplicationState "app-1"); Api (CallGetApplicationState "app-1")].
Proof.
  split; [reflexivity |].
  rewrite (proj1 (wait_v2_status_line "app-1" Wait.NEW Wait.ResNone "queued" ["queued"; "queued"])
             eq_refl).
  reflexivity.
Defined.
